(** * client/rpc_codec.go: the RPC client codec adapter

    A shallow embedding of [rpcCodec] and the records it exchanges with its
    caller, its codec and its transport.  The two collaborators are Go
    interfaces; here they are type classes over the collaborator's state, so
    every theorem holds for every implementation.  Each method of the adapter
    returns its Go result, the adapter after the call, and the list of calls
    it made on its collaborators, in order.  Two things the file leaves to
    the Go runtime are parameters as well: how [fmt.Sprintf] prints the text
    of a failure, and what becomes of a body that shares the array of the
    write buffer. *)

From Stdlib Require Import Strings.Byte.
From stdpp Require Import base option strings list gmap fin_maps.

Local Open Scope string_scope.

(** ** Go values *)

(** A Go [map[string]string]: [None] is the nil map, which reads as empty and
    panics when assigned to. *)
Abbreviation gomap := (option (gmap string string)).

(** [h[k]]: the zero value when the key is absent, also on the nil map. *)
Definition index (h : gomap) (k : string) : string :=
  match h with
  | Some es => default "" (es !! k)
  | None => ""
  end.

(** The entries a [range] over the map visits. *)
Definition entries (h : gomap) : gmap string string := default ∅ h.

(** [for k, v := range src { dst[k] = v }].  The order of a Go range is
    unspecified; the fold below is the same map for every order.  [None] is
    the panic of an assignment to an entry of the nil map, which happens as
    soon as the loop body runs once. *)
Definition rangeAssign (dst src : gomap) : option gomap :=
  match dst with
  | Some d => Some (Some (map_fold (λ k v acc, <[k:=v]> acc) d (entries src)))
  | None => if decide (entries src = ∅) then Some None else None
  end.

(** [len(s) == 0] *)
Definition len0 (s : string) : bool := Nat.eqb (String.length s) 0.

(** How a Go function call ends. *)
Inductive outcome (A : Type) : Type :=
| Returned (a : A)
| Panicked.
Arguments Returned {A} a.
Arguments Panicked {A}.

(** The error values this file builds: the [*errorString] of [errs.New], and
    the [*errors.Error] of the errors package, with its [Id] and its
    [Detail] (its code and status are fixed by the function that builds
    it). *)
Inductive error : Type :=
| errorString (text : string)
| Error_ (Id : string) (Detail : string).

Module errs.
Definition New (text : string) : error := errorString text.
End errs.

Module fmt.
(** [fmt.Sprintf(format)], called with a format and no operand.  The package
    is outside this file; what it prints for a percent sign is left open,
    and a format without one is printed as it stands. *)
Class Formatter := {
  Sprintf : string → string;
  Sprintf_plain (s : string) : String.index 0 "%" s = None → Sprintf s = s;
}.
End fmt.

Module errors.
(** Modelled from the spec: [errors.InternalServerError(id, format)] of the
    errors package, outside this file, which wraps a failure with a
    component tag.  It keeps the tag as the [Id] of the error and prints
    the text it is handed, as a format with no operand, into its
    [Detail]. *)
Definition InternalServerError `{!fmt.Formatter} (id format : string) : error :=
  Error_ id (fmt.Sprintf format).
End errors.

Definition lastStreamResponseError : string := "EOS".

Definition errShutdown : error := errs.New "connection is shut down".

(** A failure handed back by a collaborator.  The adapter asks nothing of it
    but [err.Error()], so it is kept as that text; [None] is nil. *)
Abbreviation failure := (option string).

(** ** The envelope buffer *)

Module Buffer.
(** [bytes.Buffer], as its unread contents. *)
Definition t := list byte.
Definition NewBuffer (b : list byte) : t := b.
Definition Reset (b : t) : t := [].
Definition Write (b : t) (p : list byte) : t := app b p.
Definition Bytes (b : t) : list byte := b.
(** [Read] into a slice of length [n]: the bytes copied, the error, and the
    buffer it leaves.  An empty buffer answers [io.EOF], unless the slice is
    empty too. *)
Definition Read (b : t) (n : nat) : list byte * failure * t :=
  match b with
  | [] => ([], if Nat.eqb n 0 then None else Some "EOF", Reset b)
  | _ => (take n b, None, drop n b)
  end.
End Buffer.

(** Line 125 stores in the bound message the slice [wbuf.Bytes()], which
    shares the array of the write side of the buffer.  When a later [Write]
    resets the buffer and its codec writes again before it fails, the bytes
    of that slice change under it.  What they become depends on the
    capacity of the array and on whether the slice still shares it, which
    this file does not decide: [clobbered old new] is what a body that read
    [old] reads once the reset buffer holds [new].  A slice keeps its
    length. *)
Class Sharing := {
  clobbered : list byte → Buffer.t → list byte;
  clobbered_length (old : list byte) (new : Buffer.t) :
    length (clobbered old new) = length old;
}.

Record readWriteCloser := {
  wbuf : Buffer.t;
  rbuf : Buffer.t;
}.

Module rwc.
Definition Read (x : readWriteCloser) (n : nat)
    : list byte * failure * readWriteCloser :=
  let '(p, err, r) := Buffer.Read (rbuf x) n in
  (p, err, {| wbuf := wbuf x; rbuf := r |}).

Definition Write (x : readWriteCloser) (p : list byte) : readWriteCloser :=
  {| wbuf := Buffer.Write (wbuf x) p; rbuf := rbuf x |}.

Definition Close (x : readWriteCloser) : failure * readWriteCloser :=
  (None, {| wbuf := Buffer.Reset (wbuf x); rbuf := Buffer.Reset (rbuf x) |}).
End rwc.

(** ** The collaborators *)

Module transport.
Record Message := {
  Header : gomap;
  Body : list byte;
}.

(** [transport.Client].  [Send] reads the message it is handed and does not
    write to it; [Recv] fills the fresh message it is handed. *)
Class Client (T : Type) := {
  Send : T → Message → failure * T;
  Recv : T → failure * Message * T;
  Close : T → failure * T;
}.
End transport.

Module codec.
(** Modelled from the spec: [codec.MessageType] is declared in the codec
    package, outside this file.  The spec lists its values Request and
    Response; [Unset] is the value of the [Type] field of an envelope that
    was declared and never assigned. *)
Inductive MessageType := Unset | Request | Response.

Record Message := {
  Id : string;
  Type_ : MessageType;
  Target : string;
  Method : string;
  Error : string;
  Header : gomap;
}.

(** [var me codec.Message] *)
Definition zero : Message :=
  {| Id := ""; Type_ := Unset; Target := ""; Method := ""; Error := "";
     Header := None |}.

(** [codec.Codec], built over the adapter's [readWriteCloser].  Every method
    takes the codec's state and the buffers it shares with the adapter, and
    hands both back.  The envelope is passed by pointer: [Write] and
    [ReadHeader] hand back the envelope as they left it, header map
    included, and [ReadBody] the body value it decoded into. *)
Class Codec (S B : Type) := {
  Write : S → readWriteCloser → Message → B →
          failure * Message * readWriteCloser * S;
  ReadHeader : S → readWriteCloser → Message → MessageType →
               failure * Message * readWriteCloser * S;
  ReadBody : S → readWriteCloser → B → failure * B * readWriteCloser * S;
  Close : S → readWriteCloser → failure * readWriteCloser * S;
}.

(** [codec.NewCodec] *)
Definition NewCodec (S : Type) := readWriteCloser → S.
End codec.

(** ** Requests and responses

    The [next] link of the server's free list plays no part in this file and
    is left out of both records. *)

Module request.
Record t := {
  Service : string;
  ServiceMethod : string;
  Seq : string;
}.
End request.

Module response.
Record t := {
  ServiceMethod : string;
  Seq : string;
  Error : string;
}.
End response.

(** The calls the adapter makes on what it owns. *)
Inductive call (B : Type) : Type :=
| CodecWrite (m : codec.Message) (body : B)
| CodecReadHeader (m : codec.Message) (t : codec.MessageType)
| CodecReadBody (body : B)
| CodecClose
| TransportSend (msg : transport.Message)
| TransportRecv
| TransportClose
| BufferClose.
Arguments CodecWrite {B} m body.
Arguments CodecReadHeader {B} m t.
Arguments CodecReadBody {B} body.
Arguments CodecClose {B}.
Arguments TransportSend {B} msg.
Arguments TransportRecv {B}.
Arguments TransportClose {B}.
Arguments BufferClose {B}.

(** ** The adapter *)

Record rpcCodec (T S : Type) := {
  client : T;
  codec : S;
  req : transport.Message;
  buf : readWriteCloser;
}.
Arguments client {T S} r.
Arguments codec {T S} r.
Arguments req {T S} r.
Arguments buf {T S} r.

Section Adapter.
Context {T S B : Type} `{!transport.Client T} `{!codec.Codec S B}
  `{!fmt.Formatter} `{!Sharing}.

Definition newRpcCodec (req : transport.Message) (client : T)
    (c : codec.NewCodec S) : rpcCodec T S :=
  let rwc := {| wbuf := Buffer.NewBuffer []; rbuf := Buffer.NewBuffer [] |} in
  {| buf := rwc; client := client; codec := c rwc; req := req |}.

(** The envelope [Write] builds for a request.  [fmt.Sprintf("%v", s)] of a
    string is the string. *)
Definition envelope (rq : request.t) : codec.Message :=
  {| codec.Id := request.Seq rq;
     codec.Target := request.Service rq;
     codec.Method := request.ServiceMethod rq;
     codec.Type_ := codec.Request;
     codec.Error := "";
     codec.Header := Some {[ "X-Micro-Id" := request.Seq rq;
                             "X-Micro-Service" := request.Service rq;
                             "X-Micro-Method" := request.ServiceMethod rq ]} |}.

(** [c.buf.wbuf.Reset()] *)
Definition resetW (x : readWriteCloser) : readWriteCloser :=
  {| wbuf := Buffer.Reset (wbuf x); rbuf := rbuf x |}.

Definition Write (c : rpcCodec T S) (rq : request.t) (body : B)
    : outcome (option error) * rpcCodec T S * list (call B) :=
  let buf0 := resetW (buf c) in
  let m := envelope rq in
  let '(err, m', buf1, cd1) := codec.Write (codec c) buf0 m body in
  match err with
  | Some e =>
      (Returned (Some (errors.InternalServerError "go.micro.client.codec" e)),
       {| client := client c; codec := cd1;
          req := {| transport.Header := transport.Header (req c);
                    transport.Body :=
                      clobbered (transport.Body (req c)) (wbuf buf1) |};
          buf := buf1 |},
       [CodecWrite m body])
  | None =>
      let body1 := Buffer.Bytes (wbuf buf1) in
      match rangeAssign (transport.Header (req c)) (codec.Header m') with
      | None =>
          (Panicked,
           {| client := client c; codec := cd1;
              req := {| transport.Header := transport.Header (req c);
                        transport.Body := body1 |};
              buf := buf1 |},
           [CodecWrite m body])
      | Some h =>
          let msg := {| transport.Header := h; transport.Body := body1 |} in
          let '(err, cl1) := transport.Send (client c) msg in
          let c' := {| client := cl1; codec := cd1; req := msg; buf := buf1 |} in
          let calls := [CodecWrite m body; TransportSend msg] in
          match err with
          | Some e =>
              (Returned (Some (errors.InternalServerError "go.micro.client.transport" e)),
               c', calls)
          | None => (Returned None, c', calls)
          end
      end
  end.

(** Lines 149 to 165 of [Read]: the response is filled from the envelope the
    header parse left, then the three header lookups. *)
Definition fill (me : codec.Message) (r : response.t) : response.t :=
  let r := {| response.ServiceMethod := codec.Method me;
              response.Seq := response.Seq r;
              response.Error := response.Error r |} in
  let r := {| response.ServiceMethod := response.ServiceMethod r;
              response.Seq := codec.Id me;
              response.Error := response.Error r |} in
  let r := {| response.ServiceMethod := response.ServiceMethod r;
              response.Seq := response.Seq r;
              response.Error := codec.Error me |} in
  let r := if len0 (codec.Error me)
           then {| response.ServiceMethod := response.ServiceMethod r;
                   response.Seq := response.Seq r;
                   response.Error := index (codec.Header me) "X-Micro-Error" |}
           else r in
  let r := if len0 (codec.Method me)
           then {| response.ServiceMethod := index (codec.Header me) "X-Micro-Method";
                   response.Seq := response.Seq r;
                   response.Error := response.Error r |}
           else r in
  if len0 (codec.Id me)
  then {| response.ServiceMethod := response.ServiceMethod r;
          response.Seq := index (codec.Header me) "X-Micro-Id";
          response.Error := response.Error r |}
  else r.

(** [c.buf.rbuf.Reset(); c.buf.rbuf.Write(m.Body)] *)
Definition load (x : readWriteCloser) (p : list byte) : readWriteCloser :=
  {| wbuf := wbuf x; rbuf := Buffer.Write (Buffer.Reset (rbuf x)) p |}.

(** [var me codec.Message; me.Header = m.Header] *)
Definition fresh (h : gomap) : codec.Message :=
  {| codec.Id := codec.Id codec.zero;
     codec.Type_ := codec.Type_ codec.zero;
     codec.Target := codec.Target codec.zero;
     codec.Method := codec.Method codec.zero;
     codec.Error := codec.Error codec.zero;
     codec.Header := h |}.

Definition Read (c : rpcCodec T S) (r : response.t) (b : B)
    : option error * response.t * B * rpcCodec T S * list (call B) :=
  let '(err, m, cl1) := transport.Recv (client c) in
  match err with
  | Some e =>
      (Some (errors.InternalServerError "go.micro.client.transport" e), r, b,
       {| client := cl1; codec := codec c; req := req c; buf := buf c |},
       [TransportRecv])
  | None =>
      let buf1 := load (buf c) (transport.Body m) in
      let me := fresh (transport.Header m) in
      let '(err, me', buf2, cd1) := codec.ReadHeader (codec c) buf1 me codec.Response in
      let r' := fill me' r in
      match err with
      | Some e =>
          (Some (errors.InternalServerError "go.micro.client.codec" e), r', b,
           {| client := cl1; codec := cd1; req := req c; buf := buf2 |},
           [TransportRecv; CodecReadHeader me codec.Response])
      | None =>
          let '(err, b', buf3, cd2) := codec.ReadBody cd1 buf2 b in
          let c' := {| client := cl1; codec := cd2; req := req c; buf := buf3 |} in
          let calls := [TransportRecv; CodecReadHeader me codec.Response;
                        CodecReadBody b] in
          match err with
          | Some e =>
              (Some (errors.InternalServerError "go.micro.client.codec" e), r', b',
               c', calls)
          | None => (None, r', b', c', calls)
          end
      end
  end.

(** The values of [c.buf.Close()] and [c.codec.Close()] are dropped. *)
Definition Close (c : rpcCodec T S) : option error * rpcCodec T S * list (call B) :=
  let '(_, buf1) := rwc.Close (buf c) in
  let '(_, buf2, cd1) := codec.Close (codec c) buf1 in
  let '(err, cl1) := transport.Close (client c) in
  let c' := {| client := cl1; codec := cd1; req := req c; buf := buf2 |} in
  let calls := [BufferClose; CodecClose; TransportClose] in
  match err with
  | Some e =>
      (Some (errors.InternalServerError "go.micro.client.transport" e), c', calls)
  | None => (None, c', calls)
  end.

End Adapter.

(** ** Collaborators to run the adapter with *)

Module raw.
(** Modelled from the spec: the raw-bytes passthrough codec (package
    codec/bytes, outside this file).  It writes the body bytes to the
    connection as they are, parses no header, and reads the body as all the
    bytes left on the connection. *)
Definition Write (s : unit) (conn : readWriteCloser) (m : codec.Message)
    (b : list byte) : failure * codec.Message * readWriteCloser * unit :=
  (None, m, rwc.Write conn b, s).

Definition ReadHeader (s : unit) (conn : readWriteCloser) (m : codec.Message)
    (t : codec.MessageType) : failure * codec.Message * readWriteCloser * unit :=
  (None, m, conn, s).

Definition ReadBody (s : unit) (conn : readWriteCloser) (b : list byte)
    : failure * list byte * readWriteCloser * unit :=
  let '(p, _, conn') := rwc.Read conn (length (rbuf conn)) in
  (None, p, conn', s).

Definition Close (s : unit) (conn : readWriteCloser)
    : failure * readWriteCloser * unit :=
  let '(err, conn') := rwc.Close conn in (err, conn', s).

Definition NewCodec : codec.NewCodec unit := λ _, tt.

#[global] Instance Codec : codec.Codec unit (list byte) :=
  {| codec.Write := Write; codec.ReadHeader := ReadHeader;
     codec.ReadBody := ReadBody; codec.Close := Close |}.
End raw.

Module scripted.
(** A codec whose answers are fixed in advance, as a test double would be:
    it writes the body bytes it is given, and its header parse is the
    function [parse] on the envelope it is handed. *)
Record t := {
  writeErr : failure;
  headerErr : failure;
  parse : codec.Message → codec.Message;
  bodyErr : failure;
  closeErr : failure;
}.

Definition Write (s : t) (conn : readWriteCloser) (m : codec.Message)
    (b : list byte) : failure * codec.Message * readWriteCloser * t :=
  (writeErr s, m, rwc.Write conn b, s).

Definition ReadHeader (s : t) (conn : readWriteCloser) (m : codec.Message)
    (ty : codec.MessageType) : failure * codec.Message * readWriteCloser * t :=
  (headerErr s, parse s m, conn, s).

Definition ReadBody (s : t) (conn : readWriteCloser) (b : list byte)
    : failure * list byte * readWriteCloser * t :=
  let '(p, _, conn') := rwc.Read conn (length (rbuf conn)) in
  (bodyErr s, p, conn', s).

Definition Close (s : t) (conn : readWriteCloser) : failure * readWriteCloser * t :=
  (closeErr s, conn, s).

#[global] Instance Codec : codec.Codec t (list byte) :=
  {| codec.Write := Write; codec.ReadHeader := ReadHeader;
     codec.ReadBody := ReadBody; codec.Close := Close |}.
End scripted.

Module loopback.
(** Modelled from the spec: a loopback transport, which hands back on [Recv]
    the messages it was sent, oldest first and unchanged.  [sendErr] and
    [closeErr] are what [Send] and [Close] answer. *)
Record t := {
  queue : list transport.Message;
  sendErr : failure;
  closeErr : failure;
}.

Definition Send (s : t) (msg : transport.Message) : failure * t :=
  match sendErr s with
  | Some e => (Some e, s)
  | None => (None, {| queue := queue s ++ [msg]; sendErr := sendErr s;
                      closeErr := closeErr s |})
  end.

Definition Recv (s : t) : failure * transport.Message * t :=
  match queue s with
  | msg :: q => (None, msg, {| queue := q; sendErr := sendErr s;
                               closeErr := closeErr s |})
  | [] => (Some "EOF", {| transport.Header := None; transport.Body := [] |}, s)
  end.

Definition Close (s : t) : failure * t := (closeErr s, s).

#[global] Instance Client : transport.Client t :=
  {| transport.Send := Send; transport.Recv := Recv; transport.Close := Close |}.
End loopback.

Module careless.
(** A codec that does not keep the header maps it is handed: its write
    leaves the envelope with a nil header, and its header parse leaves it
    with a new, empty one; otherwise it passes the bytes through. *)
Inductive t : Type := mk.

Definition rehead (h : gomap) (m : codec.Message) : codec.Message :=
  {| codec.Id := codec.Id m; codec.Type_ := codec.Type_ m;
     codec.Target := codec.Target m; codec.Method := codec.Method m;
     codec.Error := codec.Error m; codec.Header := h |}.

Definition Write (s : t) (conn : readWriteCloser) (m : codec.Message)
    (b : list byte) : failure * codec.Message * readWriteCloser * t :=
  (None, rehead None m, rwc.Write conn b, s).

Definition ReadHeader (s : t) (conn : readWriteCloser) (m : codec.Message)
    (ty : codec.MessageType) : failure * codec.Message * readWriteCloser * t :=
  (None, rehead (Some ∅) m, conn, s).

Definition ReadBody (s : t) (conn : readWriteCloser) (b : list byte)
    : failure * list byte * readWriteCloser * t :=
  let '(p, _, conn') := rwc.Read conn (length (rbuf conn)) in
  (None, p, conn', s).

Definition Close (s : t) (conn : readWriteCloser) : failure * readWriteCloser * t :=
  (None, conn, s).

#[global] Instance Codec : codec.Codec t (list byte) :=
  {| codec.Write := Write; codec.ReadHeader := ReadHeader;
     codec.ReadBody := ReadBody; codec.Close := Close |}.
End careless.

(** A formatter for the sample calls: it prints a format as it stands, as
    [fmt.Sprintf] does for the percent-free texts they use. *)
#[global] Instance verbatim : fmt.Formatter :=
  {| fmt.Sprintf := λ s, s; fmt.Sprintf_plain := λ s _, eq_refl |}.

(** What Go leaves of a body that shares the array, when the array is large
    enough for what is written: the new bytes over the old ones.  The
    sample calls bind an empty body, which no write changes. *)
Definition overlay (old : list byte) (new : Buffer.t) : list byte :=
  take (length old) (new ++ drop (length new) old)%list.

#[global] Instance overlaid : Sharing.
Proof.
  refine {| clobbered := overlay |}.
  intros old new. unfold overlay.
  rewrite length_take, length_app, length_drop. lia.
Defined.

(** ** The codec registry *)

(** The five constructors the table refers to, named after the package that
    declares each; the packages are outside this file. *)
Inductive constructor : Type :=
| proto_NewCodec
| json_NewCodec
| jsonrpc_NewCodec
| protorpc_NewCodec
| raw_NewCodec.

#[global] Instance constructor_eq_dec : EqDecision constructor.
Proof. solve_decision. Defined.

Definition DefaultContentType : string := "application/protobuf".

Definition DefaultCodecs : gmap string constructor :=
  {[ "application/protobuf" := proto_NewCodec;
     "application/json" := json_NewCodec;
     "application/json-rpc" := jsonrpc_NewCodec;
     "application/proto-rpc" := protorpc_NewCodec;
     "application/octet-stream" := raw_NewCodec ]}.

(** The rows of the table, as written. *)
Definition rows : list (string * constructor) :=
  [ ("application/protobuf", proto_NewCodec);
    ("application/json", json_NewCodec);
    ("application/json-rpc", jsonrpc_NewCodec);
    ("application/proto-rpc", protorpc_NewCodec);
    ("application/octet-stream", raw_NewCodec) ].

(** ** Conditions on a call, for the statements below *)

(** The four vendor-prefixed header keys the adapter knows. *)
Definition canonical : list string :=
  [ "X-Micro-Id"; "X-Micro-Service"; "X-Micro-Method"; "X-Micro-Error" ].

Section Conditions.
Context {T S B : Type} `{!transport.Client T} `{!codec.Codec S B}
  `{!fmt.Formatter} `{!Sharing}.

(** Successive [Write] calls on one adapter, whatever each returned. *)
Definition Writes (c : rpcCodec T S) (l : list (request.t * B)) : rpcCodec T S :=
  foldl (λ c x, (Write c x.1 x.2).1.2) c l.

(** A transport in state [t] that accepts a message and hands the same
    message back on the next receive. *)
Definition echoes (t : T) : Prop :=
  ∀ msg, ∃ t1 t2,
    transport.Send t msg = (None, t1) ∧ transport.Recv t1 = (None, msg, t2).

(** What the round trip asks of a codec in state [s] for the body [body]:
    on an emptied write side it writes without failure and leaves the
    canonical header entries of the envelope as they are; a header parse of
    the bytes it wrote does not fail, reports no error, reports an id and a
    method that are empty or those it wrote, and leaves the canonical header
    entries as they are; the body read after it does not fail and gives
    [body]. *)
Definition roundtrips (s : S) (body : B) : Prop :=
  ∀ conn m, wbuf conn = [] →
    ∃ m1 conn1 s1,
      codec.Write s conn m body = (None, m1, conn1, s1) ∧
      (∀ k, k ∈ canonical →
         entries (codec.Header m1) !! k = entries (codec.Header m) !! k) ∧
      ∀ conn2 h, rbuf conn2 = wbuf conn1 →
        ∃ me conn3 s2,
          codec.ReadHeader s1 conn2 (fresh h) codec.Response = (None, me, conn3, s2) ∧
          (∀ k, k ∈ canonical → index (codec.Header me) k = index h k) ∧
          codec.Error me = "" ∧
          (codec.Id me = "" ∨ codec.Id me = codec.Id m) ∧
          (codec.Method me = "" ∨ codec.Method me = codec.Method m) ∧
          ∀ b0, ∃ conn4 s3, codec.ReadBody s2 conn3 b0 = (None, body, conn4, s3).

End Conditions.

(** ** Sample calls *)

Definition greeter : request.t :=
  {| request.Service := "Greeter"; request.ServiceMethod := "Greeter.Hello";
     request.Seq := "1" |}.

Definition farewell : request.t :=
  {| request.Service := "Greeter"; request.ServiceMethod := "Greeter.Bye";
     request.Seq := "2" |}.

(** The bytes of the JSON object with the one member name, of value world. *)
Definition world : list byte :=
  [ x7b; x22; x6e; x61; x6d; x65; x22; x3a; x22; x77; x6f; x72; x6c; x64; x22; x7d ].

Definition blank : response.t :=
  {| response.ServiceMethod := ""; response.Seq := ""; response.Error := "" |}.

(** A loopback transport with nothing in flight. *)
Definition idle : loopback.t :=
  {| loopback.queue := []; loopback.sendErr := None; loopback.closeErr := None |}.

Definition bound (h : gmap string string) : transport.Message :=
  {| transport.Header := Some h; transport.Body := [] |}.

(** The raw codec over the loopback transport, bound to a message whose
    header holds [h]. *)
Definition passthrough (h : gmap string string) : rpcCodec loopback.t unit :=
  newRpcCodec (bound h) idle raw.NewCodec.

(** A scripted codec over a loopback transport, bound to a message with an
    allocated, empty header. *)
Definition rigged (s : scripted.t) (t : loopback.t) : rpcCodec loopback.t scripted.t :=
  newRpcCodec (bound ∅) t (λ _, s).

Definition obedient : scripted.t :=
  {| scripted.writeErr := None; scripted.headerErr := None;
     scripted.parse := λ m, m; scripted.bodyErr := None;
     scripted.closeErr := None |}.

Definition inflight (msg : transport.Message) : loopback.t :=
  {| loopback.queue := [msg]; loopback.sendErr := None; loopback.closeErr := None |}.

(** A header parse that finds the method and nothing else. *)
Definition methodOnly : scripted.t :=
  {| scripted.writeErr := None; scripted.headerErr := None;
     scripted.parse := λ m,
       {| codec.Id := codec.Id m; codec.Type_ := codec.Type_ m;
          codec.Target := codec.Target m; codec.Method := "Greeter.Hello";
          codec.Error := codec.Error m; codec.Header := codec.Header m |};
     scripted.bodyErr := None; scripted.closeErr := None |}.


(** A reply that carries its metadata in the transport header only. *)
Definition reply : transport.Message :=
  {| transport.Header := Some {[ "X-Micro-Error" := "boom";
                                 "X-Micro-Id" := "7";
                                 "X-Micro-Method" := "Other.Method" ]};
     transport.Body := world |}.

(** The last reply of a stream. *)
Definition last : transport.Message :=
  {| transport.Header := Some {[ "X-Micro-Error" := "EOS"; "X-Micro-Id" := "7" ]};
     transport.Body := [] |}.

(** A codec that cannot marshal. *)
Definition unmarshalable : scripted.t :=
  {| scripted.writeErr := Some "marshal failed"; scripted.headerErr := None;
     scripted.parse := λ m, m; scripted.bodyErr := None;
     scripted.closeErr := None |}.

(** A transport whose peer is gone. *)
Definition severed : loopback.t :=
  {| loopback.queue := []; loopback.sendErr := Some "broken pipe";
     loopback.closeErr := None |}.

(** What a caller puts in the header of the message it binds. *)
Definition negotiated : gmap string string :=
  {[ "Content-Type" := "application/octet-stream"; "X-Micro-Id" := "0" ]}.

(** A codec whose close fails. *)
Definition leaky : scripted.t :=
  {| scripted.writeErr := None; scripted.headerErr := None;
     scripted.parse := λ m, m; scripted.bodyErr := None;
     scripted.closeErr := Some "codec close failed" |}.

(** A transport whose close fails. *)
Definition stuck : loopback.t :=
  {| loopback.queue := []; loopback.sendErr := None;
     loopback.closeErr := Some "close timed out" |}.

(** A bound header that already carries an error entry, as a caller that
    forwards the metadata of an earlier reply would bind. *)
Definition tainted : gmap string string := {[ "X-Micro-Error" := "boom" ]}.

(** ** Leftovers and runs of calls, for the statements below *)

(** A call a user of the adapter makes. *)
Inductive op (B : Type) : Type :=
| DoWrite (rq : request.t) (body : B)
| DoRead (r : response.t) (b : B)
| DoClose.
Arguments DoWrite {B} rq body.
Arguments DoRead {B} r b.
Arguments DoClose {B}.

Section Runs.
Context {T S B : Type} `{!transport.Client T} `{!codec.Codec S B}
  `{!fmt.Formatter} `{!Sharing}.

(** The adapter with other buffers than its own. *)
Definition staleBuf (c : rpcCodec T S) (x : readWriteCloser) : rpcCodec T S :=
  {| client := client c; codec := codec c; req := req c; buf := x |}.

(** The adapter with [w] left in the write side of its buffer. *)
Definition staleW (c : rpcCodec T S) (w : Buffer.t) : rpcCodec T S :=
  staleBuf c {| wbuf := w; rbuf := rbuf (buf c) |}.

(** The adapter with [p] left in the read side of its buffer. *)
Definition staleR (c : rpcCodec T S) (p : Buffer.t) : rpcCodec T S :=
  staleBuf c {| wbuf := wbuf (buf c); rbuf := p |}.

(** The adapter after one call, whatever the call returned. *)
Definition step (c : rpcCodec T S) (o : op B) : rpcCodec T S :=
  match o with
  | DoWrite rq body => (Write c rq body).1.2
  | DoRead r b => (Read c r b).1.2
  | DoClose => (Close (B:=B) c).1.2
  end.

Definition run (c : rpcCodec T S) (ops : list (op B)) : rpcCodec T S :=
  foldl step c ops.

End Runs.

(** A message whose header map was never allocated. *)
Definition unallocated : transport.Message :=
  {| transport.Header := None; transport.Body := [] |}.

(** The raw codec over the loopback transport, bound to it. *)
Definition orphan : rpcCodec loopback.t unit :=
  newRpcCodec unallocated idle raw.NewCodec.

(** A codec that cannot decode the body. *)
Definition garbled : scripted.t :=
  {| scripted.writeErr := None; scripted.headerErr := None;
     scripted.parse := λ m, m; scripted.bodyErr := Some "invalid character";
     scripted.closeErr := None |}.

(** Whether a call releases something the adapter owns. *)
Definition releases {B : Type} (o : call B) : bool :=
  match o with
  | CodecClose | TransportClose | BufferClose => true
  | _ => false
  end.

(** The careless codec over a loopback transport, bound to a message with an
    allocated, empty header. *)
Definition heedless (t : loopback.t) : rpcCodec loopback.t careless.t :=
  newRpcCodec (bound ∅) t (λ _, careless.mk).

(** * Properties *)

(** ** Go values *)

Lemma len0_empty (s : string) : len0 s = true ↔ s = "".
Proof. unfold len0. destruct s; simpl; split; intros; congruence. Qed.

Lemma len0_nonempty (s : string) : len0 s = false ↔ s ≠ "".
Proof. rewrite <- len0_empty. destruct (len0 s); split; congruence. Qed.

Lemma index_entries (h : gomap) (k : string) :
  index h k = default "" (entries h !! k).
Proof. destruct h; simpl; [reflexivity|]. by rewrite lookup_empty. Qed.

(** The range loop is a left-biased union: what the source holds wins. *)
Lemma fold_assign (d src : gmap string string) :
  map_fold (λ k v acc, <[k:=v]> acc) d src = src ∪ d.
Proof.
  apply (map_fold_weak_ind (λ r m, r = m ∪ d)); cbv beta.
  - by rewrite (left_id_L ∅ (∪)).
  - intros k v m r _ ->. by rewrite insert_union_l.
Qed.

Lemma rangeAssign_allocated (d : gmap string string) (src : gomap) :
  rangeAssign (Some d) src = Some (Some (entries src ∪ d)).
Proof. unfold rangeAssign. by rewrite fold_assign. Qed.

Lemma rangeAssign_nil (src h : gomap) :
  rangeAssign None src = Some h → h = None ∧ entries src = ∅.
Proof.
  unfold rangeAssign. case_decide; [|discriminate].
  intros [= <-]. done.
Qed.

(** Whatever the loop did, it kept every key it did not assign, and no key
    went missing. *)
Lemma rangeAssign_lookup (dst src h : gomap) (k : string) :
  rangeAssign dst src = Some h →
  entries h !! k = match entries src !! k with
                   | Some v => Some v
                   | None => entries dst !! k
                   end.
Proof.
  destruct dst as [d|].
  - rewrite rangeAssign_allocated. intros [= <-]. simpl.
    rewrite lookup_union. destruct (entries src !! k), (d !! k); reflexivity.
  - intros [-> Hs]%rangeAssign_nil. rewrite Hs. simpl. by rewrite !lookup_empty.
Qed.

(** ** The header fallback *)

Lemma fill_Error (me : codec.Message) (r : response.t) :
  response.Error (fill me r) =
    if len0 (codec.Error me) then index (codec.Header me) "X-Micro-Error"
    else codec.Error me.
Proof.
  unfold fill.
  destruct (len0 (codec.Error me)), (len0 (codec.Method me)), (len0 (codec.Id me));
    reflexivity.
Qed.

Lemma fill_ServiceMethod (me : codec.Message) (r : response.t) :
  response.ServiceMethod (fill me r) =
    if len0 (codec.Method me) then index (codec.Header me) "X-Micro-Method"
    else codec.Method me.
Proof.
  unfold fill.
  destruct (len0 (codec.Error me)), (len0 (codec.Method me)), (len0 (codec.Id me));
    reflexivity.
Qed.

Lemma fill_Seq (me : codec.Message) (r : response.t) :
  response.Seq (fill me r) =
    if len0 (codec.Id me) then index (codec.Header me) "X-Micro-Id"
    else codec.Id me.
Proof.
  unfold fill.
  destruct (len0 (codec.Error me)), (len0 (codec.Method me)), (len0 (codec.Id me));
    reflexivity.
Qed.

Section Reading.
Context {T S B : Type} `{!transport.Client T} `{!codec.Codec S B}
  `{!fmt.Formatter} `{!Sharing}.

(** Once a message is in, the response [Read] hands back is [fill] of the
    envelope the header parse left, whether or not the parse failed. *)
Lemma Read_response (c : rpcCodec T S) (r : response.t) (b : B)
    m cl1 herr me conn cd1 :
  transport.Recv (client c) = (None, m, cl1) →
  codec.ReadHeader (codec c) (load (buf c) (transport.Body m))
    (fresh (transport.Header m)) codec.Response = (herr, me, conn, cd1) →
  (Read c r b).1.1.1.2 = fill me r.
Proof.
  intros Hrecv Hhdr. unfold Read. rewrite Hrecv, Hhdr.
  destruct herr; [reflexivity|].
  destruct (codec.ReadBody cd1 conn b) as [[[berr b'] conn'] cd2].
  destruct berr; reflexivity.
Qed.

End Reading.

Section ReadingClaims.
Context {T S B : Type} `{!transport.Client T} `{!codec.Codec S B}
  `{!fmt.Formatter} `{!Sharing}.

(** C1, as the code has it.  In a [Read] that received the message [m] and
    whose header parse left the envelope [me], each of the three response
    fields is decided by its own envelope field alone: where that field is
    empty the response field is what the envelope's header map, as the
    parse left it (it was set to the transport message's header map before
    the parse, at line 145), holds under the canonical key,
    X-Micro-Error for Error, X-Micro-Method for ServiceMethod and X-Micro-Id
    for Seq; where it is not empty the response field is the envelope field
    and is not overwritten.  When the parse hands the header map back as it
    was received, the values are those of the received message's header. *)
Theorem Read_fallback (c : rpcCodec T S) (r : response.t) (b : B)
    m cl1 herr me conn cd1 err r' b' c' calls :
  transport.Recv (client c) = (None, m, cl1) →
  codec.ReadHeader (codec c) (load (buf c) (transport.Body m))
    (fresh (transport.Header m)) codec.Response = (herr, me, conn, cd1) →
  Read c r b = (err, r', b', c', calls) →
  ((codec.Error me = "" →
      response.Error r' = index (codec.Header me) "X-Micro-Error") ∧
   (codec.Method me = "" →
      response.ServiceMethod r' = index (codec.Header me) "X-Micro-Method") ∧
   (codec.Id me = "" →
      response.Seq r' = index (codec.Header me) "X-Micro-Id")) ∧
  ((codec.Error me ≠ "" → response.Error r' = codec.Error me) ∧
   (codec.Method me ≠ "" → response.ServiceMethod r' = codec.Method me) ∧
   (codec.Id me ≠ "" → response.Seq r' = codec.Id me)) ∧
  (codec.Header me = transport.Header m →
   (codec.Error me = "" →
      response.Error r' = index (transport.Header m) "X-Micro-Error") ∧
   (codec.Method me = "" →
      response.ServiceMethod r' = index (transport.Header m) "X-Micro-Method") ∧
   (codec.Id me = "" →
      response.Seq r' = index (transport.Header m) "X-Micro-Id")).
Proof.
  intros Hrecv Hhdr Hread.
  pose proof (Read_response c r b _ _ _ _ _ _ Hrecv Hhdr) as Hr.
  rewrite Hread in Hr. simpl in Hr. subst r'.
  rewrite fill_Error, fill_ServiceMethod, fill_Seq.
  assert (Hcase : ∀ s x, (s = "" → (if len0 s then x else s) = x) ∧
                         (s ≠ "" → (if len0 s then x else s) = s)).
  { intros s x. split.
    - intros ->. reflexivity.
    - intros Hs%len0_nonempty. by rewrite Hs. }
  split; [|split].
  - repeat split; apply Hcase.
  - repeat split; apply Hcase.
  - intros <-. repeat split; apply Hcase.
Qed.


(** C7, as the code has it.  The stream-end marker is the string EOS; and in
    a [Read] that received a message whose header holds EOS under
    X-Micro-Error, whose header parse left the envelope's Error empty and
    left that header entry as it was received, the response's Error is the
    marker. *)
Theorem Read_stream_end (c : rpcCodec T S) (r : response.t) (b : B)
    m cl1 herr me conn cd1 err r' b' c' calls :
  transport.Recv (client c) = (None, m, cl1) →
  codec.ReadHeader (codec c) (load (buf c) (transport.Body m))
    (fresh (transport.Header m)) codec.Response = (herr, me, conn, cd1) →
  Read c r b = (err, r', b', c', calls) →
  entries (transport.Header m) !! "X-Micro-Error" = Some "EOS" →
  codec.Error me = "" →
  index (codec.Header me) "X-Micro-Error" = index (transport.Header m) "X-Micro-Error" →
  lastStreamResponseError = "EOS" ∧ response.Error r' = lastStreamResponseError.
Proof.
  intros Hrecv Hhdr Hread Heos Hempty Hkept. split; [reflexivity|].
  pose proof (Read_response c r b _ _ _ _ _ _ Hrecv Hhdr) as Hr.
  rewrite Hread in Hr. simpl in Hr. subst r'.
  rewrite fill_Error, Hempty. simpl. rewrite Hkept, index_entries, Heos.
  reflexivity.
Qed.

End ReadingClaims.

(** A reply whose metadata is in the transport header, read with a codec
    that finds the method only. *)
Lemma Read_fallback_witness :
  ∃ r', (Read (rigged methodOnly (inflight reply)) blank []).1.1.1.2 = r' ∧
        response.Error r' = "boom" ∧
        response.Seq r' = "7" ∧
        response.ServiceMethod r' = "Greeter.Hello".
Proof.
  destruct (Read (rigged methodOnly (inflight reply)) blank [])
    as [[[[err r'] b'] c'] calls] eqn:Hread.
  exists r'. split; [reflexivity|].
  destruct (Read_fallback (rigged methodOnly (inflight reply)) blank []
              reply idle None (scripted.parse methodOnly (fresh (transport.Header reply)))
              (load (buf (rigged methodOnly (inflight reply))) (transport.Body reply))
              methodOnly err r' b' c' calls)
    as ((HE & _ & HI) & (_ & HM & _) & _).
  - reflexivity.
  - reflexivity.
  - exact Hread.
  - split; [|split].
    + rewrite HE by reflexivity. vm_compute. reflexivity.
    + rewrite HI by reflexivity. vm_compute. reflexivity.
    + rewrite HM by discriminate. reflexivity.
Defined.


(** The last reply of a stream, read with a codec that parses nothing. *)
Lemma Read_stream_end_witness :
  lastStreamResponseError = "EOS" ∧
  response.Error (Read (rigged obedient (inflight last)) blank []).1.1.1.2 = "EOS".
Proof.
  set (c := rigged obedient (inflight last)).
  destruct (Read c blank []) as [[[[err r'] b'] c'] calls] eqn:Hread.
  simpl.
  apply (Read_stream_end c blank [] last idle None (fresh (transport.Header last))
           (load (buf c) (transport.Body last)) obedient err r' b' c' calls);
    try reflexivity.
  all: first [exact Hread | vm_compute; reflexivity].
Defined.

(** ** Writing *)

Lemma envelope_header (rq : request.t) (k v : string) :
  entries (codec.Header (envelope rq)) !! k = Some v ↔
    (k = "X-Micro-Id" ∧ v = request.Seq rq) ∨
    (k = "X-Micro-Service" ∧ v = request.Service rq) ∨
    (k = "X-Micro-Method" ∧ v = request.ServiceMethod rq).
Proof.
  simpl. rewrite !lookup_insert, lookup_singleton.
  repeat case_decide; subst; split;
    intros; destruct_or?; destruct_and?; simplify_eq; auto.
Qed.

Section Writing.
Context {T S B : Type} `{!transport.Client T} `{!codec.Codec S B}
  `{!fmt.Formatter} `{!Sharing}.

Lemma Write_codec_failed (c : rpcCodec T S) rq (body : B) e m' buf1 cd1 :
  codec.Write (codec c) (resetW (buf c)) (envelope rq) body = (Some e, m', buf1, cd1) →
  Write c rq body =
    (Returned (Some (errors.InternalServerError "go.micro.client.codec" e)),
     {| client := client c; codec := cd1;
        req := {| transport.Header := transport.Header (req c);
                  transport.Body :=
                    clobbered (transport.Body (req c)) (wbuf buf1) |};
        buf := buf1 |},
     [CodecWrite (envelope rq) body]).
Proof. intros Hw. unfold Write. rewrite Hw. reflexivity. Qed.

Lemma Write_panicked (c : rpcCodec T S) rq (body : B) m' buf1 cd1 :
  codec.Write (codec c) (resetW (buf c)) (envelope rq) body = (None, m', buf1, cd1) →
  rangeAssign (transport.Header (req c)) (codec.Header m') = None →
  Write c rq body =
    (Panicked,
     {| client := client c; codec := cd1;
        req := {| transport.Header := transport.Header (req c);
                  transport.Body := Buffer.Bytes (wbuf buf1) |};
        buf := buf1 |},
     [CodecWrite (envelope rq) body]).
Proof. intros Hw Hr. unfold Write. rewrite Hw, Hr. reflexivity. Qed.

Lemma Write_sent (c : rpcCodec T S) rq (body : B) m' buf1 cd1 h serr cl1 :
  codec.Write (codec c) (resetW (buf c)) (envelope rq) body = (None, m', buf1, cd1) →
  rangeAssign (transport.Header (req c)) (codec.Header m') = Some h →
  transport.Send (client c)
    {| transport.Header := h; transport.Body := Buffer.Bytes (wbuf buf1) |} = (serr, cl1) →
  Write c rq body =
    (Returned (errors.InternalServerError "go.micro.client.transport" <$> serr),
     {| client := cl1; codec := cd1;
        req := {| transport.Header := h; transport.Body := Buffer.Bytes (wbuf buf1) |};
        buf := buf1 |},
     [CodecWrite (envelope rq) body;
      TransportSend {| transport.Header := h;
                       transport.Body := Buffer.Bytes (wbuf buf1) |}]).
Proof.
  intros Hw Hr Hs. unfold Write. rewrite Hw, Hr, Hs. destruct serr; reflexivity.
Qed.

(** The header of the bound message after a [Write], key by key. *)
Lemma Write_header_lookup (c : rpcCodec T S) rq (body : B) res c' calls
    err m' buf1 cd1 (k : string) :
  Write c rq body = (res, c', calls) →
  codec.Write (codec c) (resetW (buf c)) (envelope rq) body = (err, m', buf1, cd1) →
  entries (transport.Header (req c')) !! k = entries (transport.Header (req c)) !! k ∨
  (is_Some (entries (codec.Header m') !! k) ∧
   entries (transport.Header (req c')) !! k = entries (codec.Header m') !! k).
Proof.
  intros Hwrite Hw. destruct err as [e|].
  - rewrite (Write_codec_failed _ _ _ _ _ _ _ Hw) in Hwrite.
    injection Hwrite as _ <- _. by left.
  - destruct (rangeAssign (transport.Header (req c)) (codec.Header m'))
      as [h|] eqn:Hr.
    + destruct (transport.Send (client c)
        {| transport.Header := h; transport.Body := Buffer.Bytes (wbuf buf1) |})
        as [serr cl1] eqn:Hs.
      rewrite (Write_sent _ _ _ _ _ _ _ _ _ Hw Hr Hs) in Hwrite.
      injection Hwrite as _ <- _. simpl.
      rewrite (rangeAssign_lookup _ _ _ k Hr).
      destruct (entries (codec.Header m') !! k) eqn:Hk; eauto.
    + rewrite (Write_panicked _ _ _ _ _ _ Hw Hr) in Hwrite.
      injection Hwrite as _ <- _. by left.
Qed.

Lemma Write_header_dom (c : rpcCodec T S) rq (body : B) :
  dom (entries (transport.Header (req c))) ⊆
  dom (entries (transport.Header (req (Write c rq body).1.2))).
Proof.
  destruct (Write c rq body) as [[res c'] calls] eqn:Hwrite.
  destruct (codec.Write (codec c) (resetW (buf c)) (envelope rq) body)
    as [[[err m'] buf1] cd1] eqn:Hw.
  intros k [v Hk]%elem_of_dom. apply elem_of_dom. simpl.
  destruct (Write_header_lookup c rq body res c' calls err m' buf1 cd1 k Hwrite Hw)
    as [-> | [Hsome ->]]; eauto.
Qed.

Lemma Writes_header_dom (l : list (request.t * B)) (c : rpcCodec T S) :
  dom (entries (transport.Header (req c))) ⊆
  dom (entries (transport.Header (req (Writes c l)))).
Proof.
  revert c. induction l as [|[rq body] l IH]; intros c; [done|].
  unfold Writes in *. simpl. etrans; [apply (Write_header_dom c rq body)|apply IH].
Qed.

(** C5.  A [Write] whose codec write fails returns that failure as an
    internal server error of the codec component and makes no call on the
    transport, which is left as it was; the bound message keeps its header,
    and its body, whose array the buffer may share since an earlier call,
    keeps its length.  A [Write] whose [Send] fails returns that failure as
    an internal server error of the transport component, after exactly one
    [Send]. *)
Theorem Write_failures (c : rpcCodec T S) (rq : request.t) (body : B) m' buf1 cd1 :
  (∀ e,
     codec.Write (codec c) (resetW (buf c)) (envelope rq) body = (Some e, m', buf1, cd1) →
     Write c rq body =
       (Returned (Some (errors.InternalServerError "go.micro.client.codec" e)),
        {| client := client c; codec := cd1;
           req := {| transport.Header := transport.Header (req c);
                     transport.Body :=
                       clobbered (transport.Body (req c)) (wbuf buf1) |};
           buf := buf1 |},
        [CodecWrite (envelope rq) body]) ∧
     length (transport.Body (req (Write c rq body).1.2)) =
       length (transport.Body (req c))) ∧
  (∀ h e cl1,
     codec.Write (codec c) (resetW (buf c)) (envelope rq) body = (None, m', buf1, cd1) →
     rangeAssign (transport.Header (req c)) (codec.Header m') = Some h →
     transport.Send (client c)
       {| transport.Header := h; transport.Body := Buffer.Bytes (wbuf buf1) |}
       = (Some e, cl1) →
     Write c rq body =
       (Returned (Some (errors.InternalServerError "go.micro.client.transport" e)),
        {| client := cl1; codec := cd1;
           req := {| transport.Header := h;
                     transport.Body := Buffer.Bytes (wbuf buf1) |};
           buf := buf1 |},
        [CodecWrite (envelope rq) body;
         TransportSend {| transport.Header := h;
                          transport.Body := Buffer.Bytes (wbuf buf1) |}])).
Proof.
  split.
  - intros e Hw. rewrite (Write_codec_failed _ _ _ _ _ _ _ Hw).
    split; [reflexivity|]. simpl. apply clobbered_length.
  - intros h e cl1 Hw Hr Hs. apply (Write_sent _ _ _ _ _ _ _ _ _ Hw Hr Hs).
Qed.

(** C8, as the code has it.  In every [Write] the first call is the codec's
    write, on the envelope with Id the request's Seq, Target its Service,
    Method its ServiceMethod, Type Request, and a header of exactly the three
    entries X-Micro-Id, X-Micro-Service and X-Micro-Method for those values.  The
    message handed to [Send] is the bound message; its body is the bytes in
    the write side of the buffer after the codec's write, and its header
    holds every entry of the envelope's header as the codec's write left it,
    so the three canonical entries whenever the codec left them there.  The
    message is sent whenever the codec's write succeeds and the bound
    message's header map is allocated. *)
Theorem Write_envelope (c : rpcCodec T S) (rq : request.t) (body : B) res c' calls :
  Write c rq body = (res, c', calls) →
  head calls = Some (CodecWrite (envelope rq) body) ∧
  (codec.Id (envelope rq) = request.Seq rq ∧
   codec.Target (envelope rq) = request.Service rq ∧
   codec.Method (envelope rq) = request.ServiceMethod rq ∧
   codec.Type_ (envelope rq) = codec.Request) ∧
  (∀ k v, entries (codec.Header (envelope rq)) !! k = Some v ↔
     (k = "X-Micro-Id" ∧ v = request.Seq rq) ∨
     (k = "X-Micro-Service" ∧ v = request.Service rq) ∨
     (k = "X-Micro-Method" ∧ v = request.ServiceMethod rq)) ∧
  (∀ msg, TransportSend msg ∈ calls →
     ∃ m' buf1 cd1,
       codec.Write (codec c) (resetW (buf c)) (envelope rq) body = (None, m', buf1, cd1) ∧
       req c' = msg ∧
       transport.Body msg = Buffer.Bytes (wbuf buf1) ∧
       (∀ k v, entries (codec.Header m') !! k = Some v →
               entries (transport.Header msg) !! k = Some v) ∧
       (entries (codec.Header (envelope rq)) ⊆ entries (codec.Header m') →
        entries (transport.Header msg) !! "X-Micro-Id" = Some (request.Seq rq) ∧
        entries (transport.Header msg) !! "X-Micro-Service" = Some (request.Service rq) ∧
        entries (transport.Header msg) !! "X-Micro-Method" = Some (request.ServiceMethod rq))) ∧
  (∀ m' buf1 cd1 h,
     codec.Write (codec c) (resetW (buf c)) (envelope rq) body = (None, m', buf1, cd1) →
     transport.Header (req c) = Some h →
     ∃ msg, calls = [CodecWrite (envelope rq) body; TransportSend msg]).
Proof.
  intros Hwrite.
  destruct (codec.Write (codec c) (resetW (buf c)) (envelope rq) body)
    as [[[err m'] buf1] cd1] eqn:Hw.
  assert (Hcases :
    (calls = [CodecWrite (envelope rq) body]) ∨
    (err = None ∧ ∃ h,
       rangeAssign (transport.Header (req c)) (codec.Header m') = Some h ∧
       req c' = {| transport.Header := h; transport.Body := Buffer.Bytes (wbuf buf1) |} ∧
       calls = [CodecWrite (envelope rq) body; TransportSend (req c')])).
  { destruct err as [e|].
    - rewrite (Write_codec_failed _ _ _ _ _ _ _ Hw) in Hwrite.
      injection Hwrite as _ _ <-. by left.
    - destruct (rangeAssign (transport.Header (req c)) (codec.Header m'))
        as [h|] eqn:Hr.
      + destruct (transport.Send (client c)
          {| transport.Header := h; transport.Body := Buffer.Bytes (wbuf buf1) |})
          as [serr cl1] eqn:Hs.
        rewrite (Write_sent _ _ _ _ _ _ _ _ _ Hw Hr Hs) in Hwrite.
        injection Hwrite as _ <- <-. right. eauto.
      + rewrite (Write_panicked _ _ _ _ _ _ Hw Hr) in Hwrite.
        injection Hwrite as _ _ <-. by left. }
  split; [|split; [|split; [|split]]].
  - destruct Hcases as [-> | (_ & h & _ & _ & ->)]; reflexivity.
  - done.
  - apply envelope_header.
  - intros msg Hin.
    destruct Hcases as [-> | (-> & h & Hr & Hreq & ->)].
    { apply list_elem_of_singleton in Hin. discriminate. }
    apply elem_of_cons in Hin as [Hin | Hin]; [discriminate|].
    apply list_elem_of_singleton in Hin. injection Hin as ->.
    exists m', buf1, cd1. split; [done|]. split; [done|].
    rewrite Hreq. simpl. split; [done|].
    assert (Hmerged : ∀ k v, entries (codec.Header m') !! k = Some v →
                             entries h !! k = Some v).
    { intros k v Hk. by rewrite (rangeAssign_lookup _ _ _ k Hr), Hk. }
    split; [done|].
    intros Hkept. repeat split; apply Hmerged;
      (eapply lookup_weaken; [|exact Hkept]); apply envelope_header; auto.
  - intros m1 b1 c1 h [= -> <- <- <-] Hh.
    destruct Hcases as [-> | (_ & h' & _ & _ & ->)]; [|eauto].
    exfalso.
    destruct (transport.Send (client c)
      {| transport.Header := Some (entries (codec.Header m') ∪ h);
         transport.Body := Buffer.Bytes (wbuf buf1) |}) as [serr cl1] eqn:Hs.
    assert (Hr : rangeAssign (transport.Header (req c)) (codec.Header m') =
                 Some (Some (entries (codec.Header m') ∪ h))).
    { rewrite Hh. apply rangeAssign_allocated. }
    rewrite (Write_sent _ _ _ _ _ _ _ _ _ Hw Hr Hs) in Hwrite. discriminate.
Qed.

(** C10.  A [Write] never clears the header of the bound message: a key that
    the envelope's header, as the codec's write left it, does not hold keeps
    in the bound message's header what it had before the call; every key
    the header held before the call it still holds after it; and every key
    it holds after the call it still holds after any further [Write] calls
    on the adapter. *)
Theorem Write_header_frame (c : rpcCodec T S) (rq : request.t) (body : B)
    res c' calls err m' buf1 cd1 :
  Write c rq body = (res, c', calls) →
  codec.Write (codec c) (resetW (buf c)) (envelope rq) body = (err, m', buf1, cd1) →
  (∀ k, entries (codec.Header m') !! k = None →
        entries (transport.Header (req c')) !! k =
        entries (transport.Header (req c)) !! k) ∧
  dom (entries (transport.Header (req c))) ⊆
    dom (entries (transport.Header (req c'))) ∧
  (∀ l : list (request.t * B),
     dom (entries (transport.Header (req c'))) ⊆
     dom (entries (transport.Header (req (Writes c' l))))).
Proof.
  intros Hwrite Hw. split; [|split].
  - intros k Hk.
    destruct (Write_header_lookup c rq body res c' calls err m' buf1 cd1 k Hwrite Hw)
      as [-> | [Hsome _]]; [done|].
    rewrite Hk in Hsome. by destruct Hsome.
  - pose proof (Write_header_dom c rq body) as Hdom. by rewrite Hwrite in Hdom.
  - intros l. apply Writes_header_dom.
Qed.

End Writing.

(** A codec that cannot marshal, and a transport whose peer is gone. *)
Lemma Write_failures_witness :
  Write (rigged unmarshalable idle) greeter world =
    (Returned (Some (errors.InternalServerError "go.micro.client.codec" "marshal failed")),
     {| client := idle; codec := unmarshalable; req := bound ∅;
        buf := {| wbuf := world; rbuf := [] |} |},
     [CodecWrite (envelope greeter) world]) ∧
  (Write (rigged obedient severed) greeter world).1.1 =
    Returned (Some (errors.InternalServerError "go.micro.client.transport" "broken pipe")).
Proof.
  split.
  - destruct (proj1 (Write_failures (rigged unmarshalable idle) greeter world
                       (envelope greeter) {| wbuf := world; rbuf := [] |}
                       unmarshalable) "marshal failed") as [Hres _];
      [reflexivity|].
    rewrite Hres. reflexivity.
  - erewrite (proj2 (Write_failures (rigged obedient severed) greeter world
                       (envelope greeter) {| wbuf := world; rbuf := [] |} obedient)
                _ "broken pipe" severed);
      [reflexivity | reflexivity | apply rangeAssign_allocated | reflexivity].
Defined.

(** The greeter request on the raw codec, bound to a negotiated header. *)
Lemma Write_envelope_witness :
  head (Write (passthrough negotiated) greeter world).2 =
    Some (CodecWrite (envelope greeter) world) ∧
  ∃ msg, (Write (passthrough negotiated) greeter world).2 =
           [CodecWrite (envelope greeter) world; TransportSend msg] ∧
         transport.Body msg = world ∧
         entries (transport.Header msg) !! "X-Micro-Id" = Some "1" ∧
         entries (transport.Header msg) !! "X-Micro-Service" = Some "Greeter" ∧
         entries (transport.Header msg) !! "X-Micro-Method" = Some "Greeter.Hello".
Proof.
  destruct (Write (passthrough negotiated) greeter world) as [[res c'] calls] eqn:Hwrite.
  destruct (Write_envelope (passthrough negotiated) greeter world res c' calls Hwrite)
    as (Hfirst & _ & _ & Hsent & Hreached).
  split; [exact Hfirst|].
  destruct (Hreached (envelope greeter) {| wbuf := world; rbuf := [] |} tt negotiated)
    as [msg Hcalls]; [reflexivity | reflexivity |].
  exists msg. split; [exact Hcalls|].
  destruct (Hsent msg) as (m' & buf1 & cd1 & Hw & _ & Hbody & _ & Hkept).
  { simpl. rewrite Hcalls. apply elem_of_cons. right. apply list_elem_of_singleton.
    reflexivity. }
  injection Hw as <- <- <-.
  split; [exact Hbody|]. apply Hkept. reflexivity.
Defined.

(** The content type a caller negotiated outlives three calls. *)
Lemma Write_header_frame_witness :
  entries (transport.Header (req (Write (passthrough negotiated) greeter world).1.2))
    !! "Content-Type" = Some "application/octet-stream" ∧
  dom negotiated ⊆
    dom (entries (transport.Header
           (req (Writes (Write (passthrough negotiated) greeter world).1.2
                   [(farewell, world); (greeter, [])])))).
Proof.
  destruct (Write (passthrough negotiated) greeter world) as [[res c'] calls] eqn:Hwrite.
  destruct (Write_header_frame (passthrough negotiated) greeter world res c' calls
              None (envelope greeter) {| wbuf := world; rbuf := [] |} tt Hwrite)
    as (Hframe & Hdom & Hlater); [reflexivity|].
  split.
  - simpl. rewrite Hframe by (vm_compute; reflexivity). vm_compute. reflexivity.
  - etrans; [exact Hdom|]. apply Hlater.
Defined.


(** ** Closing *)

Section Closing.
Context {T S B : Type} `{!transport.Client T} `{!codec.Codec S B}
  `{!fmt.Formatter} `{!Sharing}.

(** The results a [Write] can end in. *)
Lemma Write_results (c : rpcCodec T S) (rq : request.t) (body : B) :
  let res := (Write c rq body).1.1 in
  res = Panicked ∨ res = Returned None ∨
  ∃ e, res = Returned (Some (errors.InternalServerError "go.micro.client.codec" e)) ∨
       res = Returned (Some (errors.InternalServerError "go.micro.client.transport" e)).
Proof.
  unfold Write.
  destruct (codec.Write (codec c) (resetW (buf c)) (envelope rq) body)
    as [[[[e|] m'] buf1] cd1]; simpl; [eauto|].
  destruct (rangeAssign (transport.Header (req c)) (codec.Header m')) as [h|];
    simpl; [|eauto].
  destruct (transport.Send (client c) _) as [[e|] cl1]; simpl; eauto.
Qed.

(** The errors a [Read] can return. *)
Lemma Read_results (c : rpcCodec T S) (r : response.t) (b : B) :
  let err := (Read c r b).1.1.1.1 in
  err = None ∨
  ∃ e, err = Some (errors.InternalServerError "go.micro.client.codec" e) ∨
       err = Some (errors.InternalServerError "go.micro.client.transport" e).
Proof.
  unfold Read.
  destruct (transport.Recv (client c)) as [[[e|] m] cl1]; simpl; [eauto|].
  destruct (codec.ReadHeader (codec c) _ _ _) as [[[[e|] me] conn] cd1];
    simpl; [eauto|].
  destruct (codec.ReadBody cd1 conn b) as [[[[e|] b'] conn'] cd2]; simpl; eauto.
Qed.

(** [Close] leaves the bound message alone. *)
Lemma Close_req (c : rpcCodec T S) : req (Close (B:=B) c).1.2 = req c.
Proof.
  unfold Close. simpl.
  destruct (codec.Close (codec c) _) as [[cerr buf2] cd1].
  destruct (transport.Close (client c)) as [[e|] cl1]; reflexivity.
Qed.

(** C2, as the code has it.  The adapter keeps no record of having been
    closed.  A [Write] or a [Read] issued after [Close] is carried out like
    any other, starting with the codec's write or the transport's receive;
    it returns nil, or a failure of the codec or of the transport as an
    internal server error of that component, or [Write] panics on a nil
    header map; it never returns the error for a connection that is shut
    down. *)
Theorem closed_adapter_results (c : rpcCodec T S) (rq : request.t) (body : B)
    (r : response.t) (b : B) err1 c1 calls1 :
  Close (B:=B) c = (err1, c1, calls1) →
  req c1 = req c ∧
  (let res := (Write c1 rq body).1.1 in
   (res = Panicked ∨ res = Returned None ∨
    ∃ e, res = Returned (Some (errors.InternalServerError "go.micro.client.codec" e)) ∨
         res = Returned (Some (errors.InternalServerError "go.micro.client.transport" e))) ∧
   res ≠ Returned (Some errShutdown)) ∧
  head (Write c1 rq body).2 = Some (CodecWrite (envelope rq) body) ∧
  (let err := (Read c1 r b).1.1.1.1 in
   (err = None ∨
    ∃ e, err = Some (errors.InternalServerError "go.micro.client.codec" e) ∨
         err = Some (errors.InternalServerError "go.micro.client.transport" e)) ∧
   err ≠ Some errShutdown) ∧
  head (Read c1 r b).2 = Some TransportRecv.
Proof.
  intros Hclose. split; [|split; [|split; [|split]]].
  - pose proof (Close_req c) as Hreq. by rewrite Hclose in Hreq.
  - pose proof (Write_results c1 rq body) as Hres. simpl in *. split; [exact Hres|].
    destruct Hres as [-> | [-> | [e [-> | ->]]]]; discriminate.
  - unfold Write.
    destruct (codec.Write (codec c1) (resetW (buf c1)) (envelope rq) body)
      as [[[[e|] m'] buf1] cd1]; [reflexivity|].
    destruct (rangeAssign (transport.Header (req c1)) (codec.Header m')) as [h|];
      [|reflexivity].
    destruct (transport.Send (client c1) _) as [[e|] cl1]; reflexivity.
  - pose proof (Read_results c1 r b) as Herr. simpl in *. split; [exact Herr|].
    destruct Herr as [-> | [e [-> | ->]]]; discriminate.
  - unfold Read.
    destruct (transport.Recv (client c1)) as [[[e|] m] cl1]; [reflexivity|].
    destruct (codec.ReadHeader (codec c1) _ _ _) as [[[[e|] me] conn] cd1];
      [reflexivity|].
    destruct (codec.ReadBody cd1 conn b) as [[[[e|] b'] conn'] cd2]; reflexivity.
Qed.

(** C4, as the code has it.  Every [Close] resets the buffer, closes the
    codec and closes the transport, in this order and whatever each of them
    answers; it returns the failure of the transport's close as an internal
    server error of the transport component, and nil when the transport's
    close answers nil, whatever the codec's close answered. *)
Theorem Close_reports_transport (c : rpcCodec T S) :
  let buf1 := (rwc.Close (buf c)).2 in
  let closed := codec.Close (codec c) buf1 in
  let hung := transport.Close (client c) in
  Close (B:=B) c =
    (errors.InternalServerError "go.micro.client.transport" <$> hung.1,
     {| client := hung.2; codec := closed.2; req := req c; buf := closed.1.2 |},
     [BufferClose; CodecClose; TransportClose]) ∧
  (wbuf buf1 = [] ∧ rbuf buf1 = []) ∧
  ((Close (B:=B) c).1.1 = None ↔ hung.1 = None).
Proof.
  unfold Close. simpl.
  destruct (codec.Close (codec c) _) as [[cerr buf2] cd1].
  destruct (transport.Close (client c)) as [[e|] cl1]; simpl; done.
Qed.

End Closing.

(** C2 fails on the code: on the raw codec over the loopback transport, a
    [Write] after [Close] returns nil, and the [Read] after it returns nil
    with the response read back. *)
Lemma closed_adapter_still_serves :
  (Write (Close (B:=list byte) (passthrough ∅)).1.2 greeter world).1.1 = Returned None ∧
  (Write (Close (B:=list byte) (passthrough ∅)).1.2 greeter world).1.1
    ≠ Returned (Some errShutdown) ∧
  (Read (Write (Close (B:=list byte) (passthrough ∅)).1.2 greeter world).1.2 blank []).1.1.1
    = (None,
       {| response.ServiceMethod := "Greeter.Hello"; response.Seq := "1";
          response.Error := "" |}).
Proof. split; [|split]; [vm_compute; reflexivity | discriminate | vm_compute; reflexivity]. Qed.

(** Both collaborators fail to close; the calls after it still do not answer
    with the sentinel. *)
Lemma closed_adapter_results_witness :
  (Write (Close (B:=list byte) (rigged leaky stuck)).1.2 greeter world).1.1
    ≠ Returned (Some errShutdown) ∧
  (Read (Close (B:=list byte) (rigged leaky stuck)).1.2 blank []).1.1.1.1
    ≠ Some errShutdown.
Proof.
  destruct (Close (B:=list byte) (rigged leaky stuck)) as [[err1 c1] calls1] eqn:Hclose.
  destruct (closed_adapter_results (rigged leaky stuck) greeter world blank []
              err1 c1 calls1 Hclose)
    as (_ & (_ & Hw) & _ & (_ & Hr) & _).
  split; [exact Hw | exact Hr].
Defined.

(** C4 fails on the code: the codec's close fails, the transport's does not,
    and [Close] returns nil. *)
Lemma Close_swallows_codec_failure :
  (codec.Close (codec (rigged leaky idle)) (rwc.Close (buf (rigged leaky idle))).2).1.1
    = Some "codec close failed" ∧
  Close (B:=list byte) (rigged leaky idle) =
    (None, rigged leaky idle, [BufferClose; CodecClose; TransportClose]).
Proof. split; reflexivity. Qed.

(** ** The registry *)

(** Case analysis on a row of the table. *)
Ltac in_rows H :=
  unfold rows in H;
  repeat (apply elem_of_cons in H as [H|H]; [simplify_eq|]);
  try (by apply elem_of_nil in H).

(** C9.  The table holds exactly the five rows written in the source: five
    different content types, each for a different constructor, for the
    protocol-buffer, JSON, JSON-RPC, protocol-buffer RPC and raw-bytes
    codecs; a lookup finds a row by its exact key; and the default content
    type is one of the keys. *)
Theorem DefaultCodecs_rows :
  (∀ k v, DefaultCodecs !! k = Some v ↔ (k, v) ∈ rows) ∧
  (DefaultCodecs !! "application/protobuf" = Some proto_NewCodec ∧
   DefaultCodecs !! "application/json" = Some json_NewCodec ∧
   DefaultCodecs !! "application/json-rpc" = Some jsonrpc_NewCodec ∧
   DefaultCodecs !! "application/proto-rpc" = Some protorpc_NewCodec ∧
   DefaultCodecs !! "application/octet-stream" = Some raw_NewCodec) ∧
  (size DefaultCodecs = 5 ∧ NoDup rows.*1 ∧ NoDup rows.*2) ∧
  (∀ k1 k2 v, DefaultCodecs !! k1 = Some v → DefaultCodecs !! k2 = Some v → k1 = k2) ∧
  DefaultCodecs !! "application/JSON" = None ∧
  DefaultContentType ∈ dom DefaultCodecs.
Proof.
  assert (Hnd1 : NoDup rows.*1).
  { apply (bool_decide_unpack _). vm_compute. reflexivity. }
  assert (Hnd2 : NoDup rows.*2).
  { apply (bool_decide_unpack _). vm_compute. reflexivity. }
  assert (Htab : DefaultCodecs = list_to_map rows) by reflexivity.
  assert (Hrows : ∀ k v, DefaultCodecs !! k = Some v ↔ (k, v) ∈ rows).
  { intros k v. rewrite Htab. symmetry. by apply elem_of_list_to_map. }
  split; [exact Hrows|]. split; [|split; [|split; [|split]]].
  - repeat split; apply Hrows; unfold rows; rewrite !elem_of_cons; auto 10.
  - split; [|done]. rewrite Htab, map_size_list_to_map by done. reflexivity.
  - intros k1 k2 v H1%Hrows H2%Hrows.
    in_rows H1; in_rows H2; reflexivity.
  - destruct (DefaultCodecs !! "application/JSON") as [v|] eqn:Hk; [|done].
    apply Hrows in Hk. in_rows Hk.
  - apply elem_of_dom. exists proto_NewCodec. apply Hrows.
    unfold rows, DefaultContentType. rewrite !elem_of_cons. auto.
Qed.


(** ** Round trip *)

Lemma raw_roundtrips (body : list byte) : roundtrips tt body.
Proof.
  intros conn m Hempty.
  exists m, (rwc.Write conn body), tt. split; [reflexivity|]. split; [done|].
  intros conn2 h Hconn2.
  exists (fresh h), conn2, tt. split; [reflexivity|].
  split; [done|]. split; [reflexivity|]. split; [by left|]. split; [by left|].
  intros b0.
  assert (Hbody : rbuf conn2 = body).
  { rewrite Hconn2. simpl. unfold Buffer.Write. by rewrite Hempty. }
  unfold codec.ReadBody. simpl. unfold raw.ReadBody, rwc.Read, Buffer.Read.
  rewrite Hbody. destruct body as [|x body]; [by eexists _, tt|].
  eexists _, tt. by rewrite firstn_all.
Qed.

Lemma idle_echoes : echoes idle.
Proof. intros msg. eexists _, _. split; reflexivity. Qed.

Section RoundTrip.
Context {T S B : Type} `{!transport.Client T} `{!codec.Codec S B}
  `{!fmt.Formatter} `{!Sharing}.

(** C6, as the code has it.  On an adapter whose bound message has an
    allocated header map that holds nothing, or the empty string, under
    X-Micro-Error, with a codec that round-trips the body and a transport
    that echoes, [Write] returns nil and the [Read] after it returns nil,
    the body that was written, and a response with the request's Seq and
    ServiceMethod and an empty Error. *)
Theorem Write_Read_roundtrip (c : rpcCodec T S) (rq : request.t) (body : B)
    (r : response.t) (b0 : B) (h : gmap string string) :
  transport.Header (req c) = Some h →
  index (Some h) "X-Micro-Error" = "" →
  roundtrips (codec c) body →
  echoes (client c) →
  ∃ c1 calls1 r' c2 calls2,
    Write c rq body = (Returned None, c1, calls1) ∧
    Read c1 r b0 = (None, r', body, c2, calls2) ∧
    response.Seq r' = request.Seq rq ∧
    response.ServiceMethod r' = request.ServiceMethod rq ∧
    response.Error r' = "".
Proof.
  intros Hh Hclean Hcodec Hecho.
  destruct (Hcodec (resetW (buf c)) (envelope rq) eq_refl)
    as (m1 & conn1 & s1 & Hw & Hkept & Hparse).
  assert (Hr : rangeAssign (transport.Header (req c)) (codec.Header m1) =
               Some (Some (entries (codec.Header m1) ∪ h))).
  { rewrite Hh. apply rangeAssign_allocated. }
  set (msg := {| transport.Header := Some (entries (codec.Header m1) ∪ h);
                 transport.Body := Buffer.Bytes (wbuf conn1) |}).
  destruct (Hecho msg) as (t1 & t2 & Hsend & Hrecv).
  pose proof (Write_sent c rq body m1 conn1 s1 _ None t1 Hw Hr Hsend) as Hwrite.
  simpl in Hwrite. fold msg in Hwrite.
  set (c1 := {| client := t1; codec := s1; req := msg; buf := conn1 |}) in *.
  destruct (Hparse (load (buf c1) (transport.Body msg)) (transport.Header msg) eq_refl)
    as (me & conn3 & s2 & Hhdr & Hheaders & Herror & Hid & Hmethod & Hbody).
  destruct (Hbody b0) as (conn4 & s3 & Hrb).
  exists c1, [CodecWrite (envelope rq) body; TransportSend msg], (fill me r),
    {| client := t2; codec := s3; req := msg; buf := conn4 |},
    [TransportRecv; CodecReadHeader (fresh (transport.Header msg)) codec.Response;
     CodecReadBody b0].
  split; [exact Hwrite|]. split.
  { unfold Read. simpl. rewrite Hrecv. simpl.
    change (load conn1 (Buffer.Bytes (wbuf conn1)))
      with (load (buf c1) (transport.Body msg)).
    change (Some (entries (codec.Header m1) ∪ h)) with (transport.Header msg).
    rewrite Hhdr, Hrb. reflexivity. }
  assert (Hmerged : ∀ k, k ∈ canonical →
    index (codec.Header me) k =
    default "" (match entries (codec.Header (envelope rq)) !! k with
                | Some v => Some v
                | None => h !! k
                end)).
  { intros k Hk. rewrite (Hheaders k Hk). simpl. rewrite lookup_union, (Hkept k Hk).
    destruct (_ !! k), (h !! k); reflexivity. }
  rewrite fill_Seq, fill_ServiceMethod, fill_Error.
  split; [|split].
  - rewrite Hmerged by (unfold canonical; rewrite !elem_of_cons; auto).
    destruct Hid as [-> | ->]; [reflexivity|].
    simpl. destruct (len0 (request.Seq rq)); reflexivity.
  - rewrite Hmerged by (unfold canonical; rewrite !elem_of_cons; auto).
    destruct Hmethod as [-> | ->]; [reflexivity|].
    simpl. destruct (len0 (request.ServiceMethod rq)); reflexivity.
  - rewrite Herror. simpl.
    rewrite Hmerged by (unfold canonical; rewrite !elem_of_cons; auto 10).
    exact Hclean.
Qed.

End RoundTrip.

(** The greeter request and the world body, on the raw codec over an idle
    loopback. *)
Lemma Write_Read_roundtrip_witness :
  ∃ c1 calls1 r' c2 calls2,
    Write (passthrough negotiated) greeter world = (Returned None, c1, calls1) ∧
    Read c1 blank [] = (None, r', world, c2, calls2) ∧
    response.Seq r' = "1" ∧
    response.ServiceMethod r' = "Greeter.Hello" ∧
    response.Error r' = "".
Proof.
  apply (Write_Read_roundtrip (passthrough negotiated) greeter world blank []
           negotiated).
  - reflexivity.
  - vm_compute. reflexivity.
  - apply raw_roundtrips.
  - apply idle_echoes.
Defined.

(** C6 fails on the code: the raw codec round-trips and the transport
    echoes, yet a bound message that carries an error entry makes the
    response carry it. *)
Lemma roundtrip_surfaces_bound_error :
  roundtrips (codec (passthrough tainted)) world ∧
  echoes (client (passthrough tainted)) ∧
  (Write (passthrough tainted) greeter world).1.1 = Returned None ∧
  (Read (Write (passthrough tainted) greeter world).1.2 blank []).1.1 =
    (None,
     {| response.ServiceMethod := "Greeter.Hello"; response.Seq := "1";
        response.Error := "boom" |},
     world).
Proof.
  split; [apply raw_roundtrips|]. split; [apply idle_echoes|].
  split; vm_compute; reflexivity.
Qed.


(** * Further properties of the adapter *)

(** ** Reading *)

(** [fill] takes nothing from the response it is given. *)
Lemma fill_fresh (me : codec.Message) (r1 r2 : response.t) : fill me r1 = fill me r2.
Proof.
  unfold fill.
  destruct (len0 (codec.Error me)), (len0 (codec.Method me)), (len0 (codec.Id me));
    reflexivity.
Qed.

Section ReadingMore.
Context {T S B : Type} `{!transport.Client T} `{!codec.Codec S B}
  `{!fmt.Formatter} `{!Sharing}.

(** A [Read] whose receive fails returns that failure as an internal server
    error of the transport component and makes no other call: the response,
    the body, the codec, the buffers and the bound message are as before.
    Conversely an error of the transport component out of [Read] is the
    wrap of a failure of the receive: its detail is the text of that
    failure as the errors package prints it. *)
Theorem Read_recv_failed (c : rpcCodec T S) (r : response.t) (b : B) :
  (∀ e, (transport.Recv (client c)).1.1 = Some e →
     Read c r b =
       (Some (errors.InternalServerError "go.micro.client.transport" e), r, b,
        {| client := (transport.Recv (client c)).2; codec := codec c;
           req := req c; buf := buf c |},
        [TransportRecv])) ∧
  (∀ d, (Read c r b).1.1.1.1 = Some (Error_ "go.micro.client.transport" d) →
     ∃ e, (transport.Recv (client c)).1.1 = Some e ∧ d = fmt.Sprintf e).
Proof.
  unfold Read, errors.InternalServerError.
  destruct (transport.Recv (client c)) as [[[e'|] m] cl1]; simpl.
  - split; [intros e [= ->]; reflexivity | intros d [= <-]; eauto].
  - split; [discriminate|]. intros d.
    destruct (codec.ReadHeader (codec c) _ _ _) as [[[[e'|] me] conn] cd1];
      simpl; [discriminate|].
    destruct (codec.ReadBody cd1 conn b) as [[[[e'|] b'] conn'] cd2]; simpl;
      discriminate.
Qed.

(** A [Read] whose body read fails returns that failure as an internal
    server error of the codec component, after the three calls; the
    response is filled all the same, and the body is as the codec left
    it. *)
Theorem Read_body_failed (c : rpcCodec T S) (r : response.t) (b : B)
    m cl1 me conn cd1 e b' conn' cd2 :
  transport.Recv (client c) = (None, m, cl1) →
  codec.ReadHeader (codec c) (load (buf c) (transport.Body m))
    (fresh (transport.Header m)) codec.Response = (None, me, conn, cd1) →
  codec.ReadBody cd1 conn b = (Some e, b', conn', cd2) →
  Read c r b =
    (Some (errors.InternalServerError "go.micro.client.codec" e), fill me r, b',
     {| client := cl1; codec := cd2; req := req c; buf := conn' |},
     [TransportRecv; CodecReadHeader (fresh (transport.Header m)) codec.Response;
      CodecReadBody b]).
Proof.
  intros Hrecv Hhdr Hbody. unfold Read. rewrite Hrecv, Hhdr, Hbody. reflexivity.
Qed.

(** [Read] returns nil exactly when the receive, the header parse and the
    body read all answer nil; its calls are then these three, in this
    order. *)
Theorem Read_nil_iff (c : rpcCodec T S) (r : response.t) (b : B) :
  let recv := transport.Recv (client c) in
  let hdr := codec.ReadHeader (codec c) (load (buf c) (transport.Body recv.1.2))
               (fresh (transport.Header recv.1.2)) codec.Response in
  let bdy := codec.ReadBody hdr.2 hdr.1.2 b in
  ((Read c r b).1.1.1.1 = None ↔
     recv.1.1 = None ∧ hdr.1.1.1 = None ∧ bdy.1.1.1 = None) ∧
  ((Read c r b).1.1.1.1 = None →
     Read c r b =
       (None, fill hdr.1.1.2 r, bdy.1.1.2,
        {| client := recv.2; codec := bdy.2; req := req c; buf := bdy.1.2 |},
        [TransportRecv;
         CodecReadHeader (fresh (transport.Header recv.1.2)) codec.Response;
         CodecReadBody b])).
Proof.
  unfold Read.
  destruct (transport.Recv (client c)) as [[[e|] m] cl1]; simpl.
  { split; [split; [discriminate | intros [? _]; discriminate] | discriminate]. }
  destruct (codec.ReadHeader (codec c) _ _ _) as [[[[e|] me] conn] cd1]; simpl.
  { split; [split; [discriminate | intros (_ & ? & _); discriminate] | discriminate]. }
  destruct (codec.ReadBody cd1 conn b) as [[[[e|] b'] conn'] cd2]; simpl.
  { split; [split; [discriminate | intros (_ & _ & ?); discriminate] | discriminate]. }
  split; [split; done | done].
Qed.

(** Once a message is received, nothing of the response the caller passed
    in survives: [Read] gives the same result whatever that response
    held. *)
Theorem Read_response_fresh (c : rpcCodec T S) (r1 r2 : response.t) (b : B) :
  (transport.Recv (client c)).1.1 = None →
  Read c r1 b = Read c r2 b.
Proof.
  unfold Read.
  destruct (transport.Recv (client c)) as [[[e|] m] cl1]; simpl; [discriminate|].
  intros _.
  destruct (codec.ReadHeader (codec c) _ _ _) as [[[[e|] me] conn] cd1].
  - by rewrite (fill_fresh me r1 r2).
  - destruct (codec.ReadBody cd1 conn b) as [[[[e|] b'] conn'] cd2];
      by rewrite (fill_fresh me r1 r2).
Qed.

(** Bytes left in the read side of the buffer by an earlier call never reach
    the codec: the error, the response, the body and the calls of a [Read]
    do not depend on them, and neither does the adapter it leaves once a
    message is received.  [Read] leaves the bound message alone. *)
Theorem Read_stale_rbuf (c : rpcCodec T S) (r : response.t) (b : B) (p : Buffer.t) :
  (Read (staleR c p) r b).1.1 = (Read c r b).1.1 ∧
  (Read (staleR c p) r b).2 = (Read c r b).2 ∧
  ((transport.Recv (client c)).1.1 = None → Read (staleR c p) r b = Read c r b) ∧
  req (Read c r b).1.2 = req c.
Proof.
  unfold Read, staleR, staleBuf, load. simpl.
  destruct (transport.Recv (client c)) as [[[e|] m] cl1]; simpl; [done|].
  destruct (codec.ReadHeader (codec c) _ _ _) as [[[[e|] me] conn] cd1];
    simpl; [done|].
  destruct (codec.ReadBody cd1 conn b) as [[[[e|] b'] conn'] cd2]; done.
Qed.

End ReadingMore.

(** Each field of the response [Read] fills is empty exactly when both of
    its sources are: the envelope field the header parse left, and the
    header entry under the canonical key.  So the response reports success
    only if neither the codec nor the header carries an error. *)
Theorem fill_empty_iff (me : codec.Message) (r : response.t) :
  (response.Error (fill me r) = "" ↔
     codec.Error me = "" ∧ index (codec.Header me) "X-Micro-Error" = "") ∧
  (response.ServiceMethod (fill me r) = "" ↔
     codec.Method me = "" ∧ index (codec.Header me) "X-Micro-Method" = "") ∧
  (response.Seq (fill me r) = "" ↔
     codec.Id me = "" ∧ index (codec.Header me) "X-Micro-Id" = "").
Proof.
  rewrite fill_Error, fill_ServiceMethod, fill_Seq.
  assert (Hcase : ∀ s x, (if len0 s then x else s) = "" ↔ s = "" ∧ x = "").
  { intros s x. destruct (len0 s) eqn:Hs.
    - apply len0_empty in Hs. subst s. tauto.
    - apply len0_nonempty in Hs. tauto. }
  split; [|split]; apply Hcase.
Qed.

(** A codec that cannot decode the body, on the reply with header-only
    metadata. *)
Lemma Read_body_failed_witness :
  (Read (rigged garbled (inflight reply)) blank []).1.1.1 =
    (Some (errors.InternalServerError "go.micro.client.codec" "invalid character"),
     {| response.ServiceMethod := "Other.Method"; response.Seq := "7";
        response.Error := "boom" |}).
Proof.
  rewrite (Read_body_failed (rigged garbled (inflight reply)) blank []
             reply idle (fresh (transport.Header reply))
             {| wbuf := []; rbuf := world |} garbled "invalid character"
             world {| wbuf := []; rbuf := [] |} garbled);
    [vm_compute; reflexivity | reflexivity | reflexivity | reflexivity].
Defined.

(** The reply in flight, read into a blank response and into one that holds
    the fields of an earlier call. *)
Lemma Read_response_fresh_witness :
  Read (rigged methodOnly (inflight reply)) blank [] =
  Read (rigged methodOnly (inflight reply))
    {| response.ServiceMethod := "Stale.Method"; response.Seq := "6";
       response.Error := "stale" |} [].
Proof. apply Read_response_fresh. reflexivity. Defined.

(** An idle loopback has nothing to hand back. *)
Lemma Read_recv_failed_witness :
  Read (rigged obedient idle) blank world =
    (Some (errors.InternalServerError "go.micro.client.transport" "EOF"), blank, world,
     rigged obedient idle, [TransportRecv]).
Proof.
  rewrite (proj1 (Read_recv_failed (rigged obedient idle) blank world) "EOF");
    reflexivity.
Defined.

(** ** Writing *)

(** The range loop of [Write], run over the entries in any order, assigns
    the same map: the entries of the source over those of the
    destination. *)
Theorem rangeAssign_any_order (d src : gmap string string)
    (l : list (string * string)) :
  l ≡ₚ map_to_list src →
  foldr (λ kv acc, <[kv.1:=kv.2]> acc) d l = src ∪ d ∧
  rangeAssign (Some d) (Some src) = Some (Some (src ∪ d)).
Proof.
  intros Hl. split; [|apply rangeAssign_allocated].
  assert (Hfold : ∀ l', foldr (λ kv acc, <[kv.1:=kv.2]> acc) d l'
                        = list_to_map l' ∪ d).
  { induction l' as [|[k v] l' IH]; simpl.
    - by rewrite (left_id_L ∅ (∪)).
    - by rewrite IH, insert_union_l. }
  rewrite Hfold. f_equal.
  rewrite <- (list_to_map_to_list src).
  apply list_to_map_proper; [|exact Hl].
  rewrite Hl. apply NoDup_fst_map_to_list.
Qed.

Section WritingMore.
Context {T S B : Type} `{!transport.Client T} `{!codec.Codec S B}
  `{!fmt.Formatter} `{!Sharing}.

(** Bytes left in the write side of the buffer by an earlier call never
    reach the codec or the wire: [Write] gives the same result whatever they
    are. *)
Theorem Write_stale_wbuf (c : rpcCodec T S) (rq : request.t) (body : B) (w : Buffer.t) :
  Write (staleW c w) rq body = Write c rq body.
Proof. reflexivity. Qed.

(** [Write] panics exactly when the codec's write succeeds, the header map
    of the bound message is nil, and the envelope's header still holds an
    entry.  Nothing is sent then, the transport is as before, and the bound
    message has the written bytes as its body and its nil header. *)
Theorem Write_panics_iff (c : rpcCodec T S) (rq : request.t) (body : B) :
  let w := codec.Write (codec c) (resetW (buf c)) (envelope rq) body in
  ((Write c rq body).1.1 = Panicked ↔
     w.1.1.1 = None ∧ transport.Header (req c) = None ∧
     entries (codec.Header w.1.1.2) ≠ ∅) ∧
  ((Write c rq body).1.1 = Panicked →
     Write c rq body =
       (Panicked,
        {| client := client c; codec := w.2;
           req := {| transport.Header := None;
                     transport.Body := Buffer.Bytes (wbuf w.1.2) |};
           buf := w.1.2 |},
        [CodecWrite (envelope rq) body])).
Proof.
  unfold Write.
  destruct (codec.Write (codec c) (resetW (buf c)) (envelope rq) body)
    as [[[[e|] m'] buf1] cd1]; simpl.
  { split; [split; [discriminate | intros [? _]; discriminate] | discriminate]. }
  destruct (transport.Header (req c)) as [h|] eqn:Hh; simpl.
  { destruct (transport.Send (client c) _) as [[e|] cl1]; simpl;
      (split; [split; [discriminate | intros (_ & ? & _); discriminate]
              | discriminate]). }
  case_decide as Hempty; simpl.
  - destruct (transport.Send (client c) _) as [[e|] cl1]; simpl;
      (split; [split; [discriminate | intros (_ & _ & ?); done] | discriminate]).
  - split; [split; done | done].
Qed.

(** What [Write] returns tells what happened.  It returns nil exactly when
    the codec's write, the header merge and the send all succeed, and its
    calls are then the codec's write and one send of the bound message as
    the call leaves it.  It returns an error of the codec component exactly
    when the codec's write fails, and an error of the transport component
    exactly when the codec's write and the merge succeed and the send
    fails; the detail of the error is the text of the failure as the
    errors package prints it. *)
Theorem Write_result_iff (c : rpcCodec T S) (rq : request.t) (body : B) :
  let w := codec.Write (codec c) (resetW (buf c)) (envelope rq) body in
  let sent h := transport.Send (client c)
                  {| transport.Header := h;
                     transport.Body := Buffer.Bytes (wbuf w.1.2) |} in
  let merged := rangeAssign (transport.Header (req c)) (codec.Header w.1.1.2) in
  ((Write c rq body).1.1 = Returned None ↔
     w.1.1.1 = None ∧ ∃ h, merged = Some h ∧ (sent h).1 = None) ∧
  ((Write c rq body).1.1 = Returned None →
     (Write c rq body).2 =
       [CodecWrite (envelope rq) body; TransportSend (req (Write c rq body).1.2)]) ∧
  (∀ d, (Write c rq body).1.1 =
          Returned (Some (Error_ "go.micro.client.codec" d)) ↔
        ∃ e, w.1.1.1 = Some e ∧ d = fmt.Sprintf e) ∧
  (∀ d, (Write c rq body).1.1 =
          Returned (Some (Error_ "go.micro.client.transport" d)) ↔
        w.1.1.1 = None ∧
        ∃ h e, merged = Some h ∧ (sent h).1 = Some e ∧ d = fmt.Sprintf e).
Proof.
  unfold Write, errors.InternalServerError.
  destruct (codec.Write (codec c) (resetW (buf c)) (envelope rq) body)
    as [[[[e0|] m'] buf1] cd1]; simpl.
  { split; [|split; [|split]].
    - split; [discriminate | intros [? _]; discriminate].
    - discriminate.
    - intros d; split; [intros [= <-]; eauto|].
      intros (e & [= <-] & ->). reflexivity.
    - intros d; split; [discriminate | intros [? _]; discriminate]. }
  destruct (rangeAssign (transport.Header (req c)) (codec.Header m')) as [h|];
    simpl.
  2:{ split; [|split; [|split]].
      - split; [discriminate | intros (_ & h & ? & _); discriminate].
      - discriminate.
      - intros d; split; [discriminate | intros (e & ? & _); discriminate].
      - intros d; split; [discriminate|].
        intros (_ & h & e & ? & _); discriminate. }
  destruct (transport.Send (client c) _) as [[e0|] cl1] eqn:Hs; simpl.
  - split; [|split; [|split]].
    + split; [discriminate|].
      intros (_ & h' & [= <-] & Hn). rewrite Hs in Hn. discriminate.
    + discriminate.
    + intros d; split; [discriminate | intros (e & ? & _); discriminate].
    + intros d; split.
      * intros [= <-]. split; [done|]. exists h, e0.
        split; [reflexivity|]. by rewrite Hs.
      * intros (_ & h' & e & [= <-] & He & ->). rewrite Hs in He. simpl in He.
        by injection He as ->.
  - split; [|split; [|split]].
    + split; [|done].
      intros _. split; [done|]. eexists. split; [reflexivity|]. by rewrite Hs.
    + reflexivity.
    + intros d; split; [discriminate | intros (e & ? & _); discriminate].
    + intros d; split; [discriminate|].
      intros (_ & h' & e & [= <-] & He & _). rewrite Hs in He. discriminate.
Qed.

(** A [Write] whose envelope header, as the codec's write left it, holds
    only entries the bound message's header already holds, leaves that
    header as it is; so writing the same request again changes nothing in
    it. *)
Theorem Write_header_fixpoint (c : rpcCodec T S) (rq : request.t) (body : B)
    err m' buf1 cd1 :
  codec.Write (codec c) (resetW (buf c)) (envelope rq) body = (err, m', buf1, cd1) →
  entries (codec.Header m') ⊆ entries (transport.Header (req c)) →
  transport.Header (req (Write c rq body).1.2) = transport.Header (req c).
Proof.
  intros Hw Hsub. unfold Write. rewrite Hw.
  destruct err as [e|]; [reflexivity|].
  destruct (transport.Header (req c)) as [h|] eqn:Hh.
  - rewrite rangeAssign_allocated.
    destruct (transport.Send (client c) _) as [[e|] cl1]; simpl;
      f_equal; by apply map_subseteq_union.
  - simpl in Hsub.
    assert (Hnone : entries (codec.Header m') = ∅).
    { apply map_empty. intros k.
      destruct (entries (codec.Header m') !! k) as [v|] eqn:Hk; [|done].
      pose proof (lookup_weaken _ _ _ _ Hk Hsub) as Hin.
      by rewrite lookup_empty in Hin. }
    unfold rangeAssign. rewrite decide_True by done.
    destruct (transport.Send (client c) _) as [[e|] cl1]; reflexivity.
Qed.

End WritingMore.

(** The three entries of the greeter envelope, visited last to first. *)
Lemma rangeAssign_any_order_witness :
  foldr (λ kv acc, <[kv.1:=kv.2]> acc) negotiated
    [ ("X-Micro-Method", "Greeter.Hello"); ("X-Micro-Service", "Greeter");
      ("X-Micro-Id", "1") ]
  = entries (codec.Header (envelope greeter)) ∪ negotiated.
Proof.
  apply (rangeAssign_any_order negotiated (entries (codec.Header (envelope greeter)))).
  apply (bool_decide_unpack _). vm_compute. reflexivity.
Defined.

(** The raw codec bound to a message whose header map was never
    allocated. *)
Lemma Write_panics_iff_witness :
  Write orphan greeter world =
    (Panicked,
     {| client := idle; codec := tt;
        req := {| transport.Header := None; transport.Body := world |};
        buf := {| wbuf := world; rbuf := [] |} |},
     [CodecWrite (envelope greeter) world]).
Proof.
  rewrite (proj2 (Write_panics_iff orphan greeter world)); [reflexivity|].
  apply (proj1 (Write_panics_iff orphan greeter world)).
  split; [reflexivity|]. split; [reflexivity|].
  intros Hempty. apply (f_equal (λ m, m !! "X-Micro-Id")) in Hempty.
  vm_compute in Hempty. discriminate.
Defined.

(** The greeter request written a second time. *)
Lemma Write_header_fixpoint_witness :
  transport.Header
    (req (Write (Write (passthrough negotiated) greeter world).1.2 greeter world).1.2)
  = transport.Header (req (Write (passthrough negotiated) greeter world).1.2).
Proof.
  apply (Write_header_fixpoint (Write (passthrough negotiated) greeter world).1.2
           greeter world None (envelope greeter) {| wbuf := world; rbuf := [] |} tt).
  - reflexivity.
  - apply map_subseteq_spec. intros k v Hk.
    apply envelope_header in Hk as [[-> ->] | [[-> ->] | [-> ->]]];
      vm_compute; reflexivity.
Defined.

(** ** Closing and runs of calls *)

Section ClosingMore.
Context {T S B : Type} `{!transport.Client T} `{!codec.Codec S B}
  `{!fmt.Formatter} `{!Sharing}.

Lemma Read_req (c : rpcCodec T S) (r : response.t) (b : B) :
  req (Read c r b).1.2 = req c.
Proof.
  unfold Read.
  destruct (transport.Recv (client c)) as [[[e|] m] cl1]; simpl; [done|].
  destruct (codec.ReadHeader (codec c) _ _ _) as [[[[e|] me] conn] cd1];
    simpl; [done|].
  destruct (codec.ReadBody cd1 conn b) as [[[[e|] b'] conn'] cd2]; done.
Qed.

(** What is left in the buffers never reaches the codec's close: [Close]
    gives the same result, and leaves the same adapter, whatever they
    hold. *)
Theorem Close_stale_buf (c : rpcCodec T S) (x : readWriteCloser) :
  Close (B:=B) (staleBuf c x) = Close (B:=B) c.
Proof. reflexivity. Qed.

(** No call ever removes a key from the header of the bound message,
    whatever the calls return: after any run of [Write], [Read] and [Close]
    calls the header holds every key it held before.  [Read] and [Close]
    leave the bound message alone, so a run without a [Write] leaves it as
    it was. *)
Theorem run_header_dom (ops : list (op B)) (c : rpcCodec T S) :
  dom (entries (transport.Header (req c))) ⊆
    dom (entries (transport.Header (req (run c ops)))) ∧
  ((∀ rq body, DoWrite rq body ∉ ops) → req (run c ops) = req c).
Proof.
  revert c. induction ops as [|o ops IH]; intros c; [done|].
  unfold run in *. simpl. destruct (IH (step c o)) as [IHdom IHreq]. split.
  - etrans; [|exact IHdom]. destruct o as [rq body|r b|]; simpl.
    + apply Write_header_dom.
    + by rewrite Read_req.
    + by rewrite Close_req.
  - intros Hnw. rewrite IHreq.
    + destruct o as [rq body|r b|]; simpl.
      * exfalso. apply (Hnw rq body). apply list_elem_of_here.
      * apply Read_req.
      * apply Close_req.
    + intros rq body Hin. apply (Hnw rq body). by apply list_elem_of_further.
Qed.

End ClosingMore.

(** ** The envelope buffer *)

(** The two sides of the buffer are independent: a write does not change
    what a read returns or leaves, whichever comes first; and closing empties
    both sides whatever they held, answers nil, and is idempotent; a read
    after it finds nothing, and answers the end of file unless it asks for
    no byte. *)
Theorem rwc_sides (x y : readWriteCloser) (p : list byte) (n : nat) :
  rwc.Read (rwc.Write x p) n = ((rwc.Read x n).1, rwc.Write (rwc.Read x n).2 p) ∧
  rwc.Close x = (None, {| wbuf := []; rbuf := [] |}) ∧
  (rwc.Close x).2 = (rwc.Close y).2 ∧
  rwc.Close (rwc.Close x).2 = rwc.Close x ∧
  (rwc.Read (rwc.Close x).2 n).1 = ([], if Nat.eqb n 0 then None else Some "EOF").
Proof.
  unfold rwc.Read, rwc.Write, rwc.Close, Buffer.Read, Buffer.Reset. simpl.
  split; [|done]. by destruct (rbuf x).
Qed.

(** ** What a failed call leaves to the caller *)

Section Releasing.
Context {T S B : Type} `{!transport.Client T} `{!codec.Codec S B}
  `{!fmt.Formatter} `{!Sharing}.

(** [Write] and [Read] release nothing, however they end: neither closes
    the codec, the transport or the buffer after a failure, [Write] makes at
    most two calls and never receives, [Read] makes at most three and never
    sends.  Releasing is left to [Close], which makes its three calls and no
    other. *)
Theorem only_Close_releases (c : rpcCodec T S) (rq : request.t) (body : B)
    (r : response.t) (b : B) :
  (Forall (λ o, releases o = false) (Write c rq body).2 ∧
   (length (Write c rq body).2 ≤ 2)%nat ∧
   TransportRecv ∉ (Write c rq body).2) ∧
  (Forall (λ o, releases o = false) (Read c r b).2 ∧
   (length (Read c r b).2 ≤ 3)%nat ∧
   ∀ msg, TransportSend msg ∉ (Read c r b).2) ∧
  Forall (λ o, releases o = true) (Close (B:=B) c).2.
Proof.
  split; [|split].
  - unfold Write.
    destruct (codec.Write (codec c) (resetW (buf c)) (envelope rq) body)
      as [[[[e|] m'] buf1] cd1]; simpl.
    { repeat split; [by repeat constructor | lia | ].
      intros Hin. apply list_elem_of_singleton in Hin. discriminate. }
    destruct (rangeAssign (transport.Header (req c)) (codec.Header m')) as [h|];
      simpl.
    2:{ repeat split; [by repeat constructor | lia | ].
        intros Hin. apply list_elem_of_singleton in Hin. discriminate. }
    destruct (transport.Send (client c) _) as [[e|] cl1]; simpl;
      (repeat split; [by repeat constructor | lia | ];
       intros Hin; apply elem_of_cons in Hin as [Hin|Hin]; [discriminate|];
       apply list_elem_of_singleton in Hin; discriminate).
  - unfold Read.
    destruct (transport.Recv (client c)) as [[[e|] m] cl1]; simpl.
    { repeat split; [by repeat constructor | lia | ].
      intros msg Hin. apply list_elem_of_singleton in Hin. discriminate. }
    destruct (codec.ReadHeader (codec c) _ _ _) as [[[[e|] me] conn] cd1]; simpl.
    { repeat split; [by repeat constructor | lia | ].
      intros msg Hin. apply elem_of_cons in Hin as [Hin|Hin]; [discriminate|].
      apply list_elem_of_singleton in Hin. discriminate. }
    destruct (codec.ReadBody cd1 conn b) as [[[[e|] b'] conn'] cd2]; simpl;
      (repeat split; [by repeat constructor | lia | ];
       intros msg Hin; apply elem_of_cons in Hin as [Hin|Hin]; [discriminate|];
       apply elem_of_cons in Hin as [Hin|Hin]; [discriminate|];
       apply list_elem_of_singleton in Hin; discriminate).
  - unfold Close. simpl.
    destruct (codec.Close (codec c) _) as [[cerr buf2] cd1].
    destruct (transport.Close (client c)) as [[e|] cl1]; simpl;
      by repeat constructor.
Qed.

End Releasing.


(** ** A codec that does not keep the header maps *)

(** C1 fails on the code: the reply holds boom, Other.Method and 7 under the
    canonical keys of its transport header; the header parse leaves the
    three envelope fields empty and the envelope with a new, empty header
    map; the three response fields are then empty, not the transport-header
    values. *)
Lemma fallback_reads_parsed_header :
  (transport.Recv (client (heedless (inflight reply)))).1 = (None, reply) ∧
  (index (transport.Header reply) "X-Micro-Error" = "boom" ∧
   index (transport.Header reply) "X-Micro-Method" = "Other.Method" ∧
   index (transport.Header reply) "X-Micro-Id" = "7") ∧
  (codec.ReadHeader (codec (heedless (inflight reply)))
     (load (buf (heedless (inflight reply))) (transport.Body reply))
     (fresh (transport.Header reply)) codec.Response).1.1.2
    = careless.rehead (Some ∅) codec.zero ∧
  (Read (heedless (inflight reply)) blank []).1.1.1 =
    (None,
     {| response.ServiceMethod := ""; response.Seq := ""; response.Error := "" |}).
Proof.
  split; [reflexivity|]. split; [by vm_compute|]. split; [reflexivity|].
  vm_compute. reflexivity.
Qed.

(** C7 fails on the code: the last reply of a stream holds EOS under
    X-Micro-Error in its transport header and the header parse leaves the
    envelope's Error empty, but it also leaves the envelope with a new,
    empty header map, and the response's Error is empty, not the marker. *)
Lemma stream_end_lost :
  (transport.Recv (client (heedless (inflight last)))).1 = (None, last) ∧
  entries (transport.Header last) !! "X-Micro-Error" = Some "EOS" ∧
  codec.Error
    (codec.ReadHeader (codec (heedless (inflight last)))
       (load (buf (heedless (inflight last))) (transport.Body last))
       (fresh (transport.Header last)) codec.Response).1.1.2 = "" ∧
  response.Error (Read (heedless (inflight last)) blank []).1.1.1.2 = "" ∧
  response.Error (Read (heedless (inflight last)) blank []).1.1.1.2
    ≠ lastStreamResponseError.
Proof.
  split; [reflexivity|]. split; [by vm_compute|]. split; [reflexivity|].
  split; [by vm_compute|]. vm_compute. discriminate.
Qed.

(** C8 fails on the code: the envelope handed to the codec holds the three
    canonical entries, the codec's write succeeds and leaves the envelope
    with a nil header, and the message that is sent holds none of them. *)
Lemma canonical_entries_dropped :
  entries (codec.Header (envelope greeter)) !! "X-Micro-Id" = Some "1" ∧
  (Write (heedless idle) greeter world).1.1 = Returned None ∧
  (Write (heedless idle) greeter world).2 =
    [CodecWrite (envelope greeter) world;
     TransportSend {| transport.Header := Some ∅; transport.Body := world |}].
Proof.
  split; [by vm_compute|]. split; vm_compute; reflexivity.
Qed.
